(** * albert: single-instance gateway and usage-store start-up

    A shallow embedding of [src/lib/albertcore/src/core/albert.cpp]:
    [Core::AlbertApp::run], [myMessageOutput] and [dispatchMessage].

    The program is a straight-line sequence of calls into Qt and SQLite.
    Every answer the libraries give is a field of [Env], one field per
    question asked, and the answers to different questions are not assumed to
    be consistent with each other; everything the program does to the outside
    is appended to the event log of [World].  Only the SQL statements are given
    a semantics of their own, because the retention and schema properties are
    about the stored rows; [julianday] is computed in exact rationals. *)

From Stdlib Require Import ZArith QArith List String Ascii Bool Lia.
From Stdlib.Strings Require Import Byte.
From stdpp Require Import base option gmap strings.
Import ListNotations.

Local Open Scope list_scope.
Local Open Scope string_scope.
Local Open Scope Z_scope.

(** ** Qt value types *)

(** [QString] is text, [QByteArray] is what travels over the local socket. *)
Abbreviation QString := string (only parsing).
Abbreviation QByteArray := (list byte) (only parsing).

(** A C string literal handed to [QIODevice::write(const char* )]. *)
Definition cstr (s : string) : QByteArray := list_byte_of_string s.

Definition EXIT_SUCCESS : Z := 0.
Definition EXIT_FAILURE : Z := 1.

Inductive QtMsgType :=
| QtDebugMsg | QtInfoMsg | QtWarningMsg | QtCriticalMsg | QtFatalMsg.

Record QMessageLogContext := { function : string }.

Inductive Stream := stdout | stderr.

(** One item pushed into a [QDebug] stream with [<<]. *)
Inductive StreamItem :=
| Lit (s : string)            (* const char*: printed as is *)
| QStr (s : QString)          (* QString: printed quoted *)
| QBytes (b : QByteArray).    (* QByteArray: printed quoted *)

(** ** The usage store: tables, rows and the four SQL statements *)

Inductive Value :=
| VNull
| VText (s : string)
| VInteger (n : Z)
| VDateTime (ms : Z).   (* a time string; [ms] is the instant in ms since the Unix epoch *)

Inductive ColumnType := TEXT | INTEGER | DATETIME.

Record Column := {
  col_name : string;
  col_type : ColumnType;
  col_not_null : bool;
  col_default_current_timestamp : bool
}.

Record Table := {
  columns : list Column;
  rows : list (gmap string Value)
}.

Inductive Stmt :=
| CreateTableIfNotExists (name : string) (cols : list Column)
| DeleteOlderThan (table : string) (column : string) (days : Z).

(** ** What the program does to the outside *)

Inductive Event :=
(* stdio, from myMessageOutput *)
| Fprintf (s : Stream) (text : QByteArray)
| Fflush (s : Stream)
(* QApplication *)
| AppNew
| AppSetApplicationName (s : QString)
| AppSetApplicationDisplayName (s : QString)
| AppSetApplicationVersion (s : QString)
| AppSetQuitOnLastWindowClosed (b : bool)
| AppSetWindowIcon (icon : QString)
| AppExec
(* QLocalSocket *)
| SocketConnectToServer (name : QString)
| SocketWaitForConnected (msecs : Z)
| SocketWrite (data : QByteArray)
| SocketFlush
| SocketWaitForReadyRead (msecs : Z)
| SocketReadAll
| SocketClose
| SocketDeleteLater
(* QLocalServer *)
| ServerRemoveServer (name : QString)
| ServerListen (name : QString)
| ServerConnectNewConnection          (* newConnection -> dispatchMessage *)
| ServerNextPendingConnection
| ServerClose
(* Frontend *)
| FrontendSetVisible (b : bool)
| FrontendToggleVisibility
(* files and settings *)
| DirMkpath (dir : QString)
| SettingsSetPath (dir : QString)
| FileRemove (path : QString)
| FileRename (old new : QString)
| FileWrite (path : QString) (text : QString)
| SettingsSetValue (key : QString) (b : bool)
(* dialogs *)
| MessageBox (title : QString)
(* database *)
| DbAddDatabase (driver : QString)
| DbSetDatabaseName (path : QString)
| DbOpen
| DbTransaction
| DbExec (s : Stmt)
| DbCommit
(* core components, tray, hotkey, signals *)
| NewFrontendManager (pluginDirs : list QString)
| NewExtensionManager (pluginDirs : list QString)
| ReloadExtensions
| NewHotkeyManager
| NewQueryManager
| NewTrayIcon
| TrayMenu (actions : list QString)
| RegisterHotkey (hotkey : QString)
| InstallSignalHandler (sig : Z)
| NewSettingsWidget
| SettingsWidgetShow
| ConnectTrayMenu
| ConnectFrontend
| ConnectFrontendChanged
| DeleteComponents.

(** ** The environment: the answer of every library call *)

Record Env := {
  (* clock, compiler and QDebug formatting *)
  currentTime : nat -> string;          (* QTime::currentTime().toString(), per call *)
  context : QMessageLogContext;
  quoted : QString -> string;           (* QDebug << QString *)
  quotedBytes : QByteArray -> string;   (* QDebug << QByteArray *)
  toLocal8Bit : QString -> QByteArray;
  fromLocal8Bit : QByteArray -> QString;
  (* QStandardPaths::writableLocation *)
  CacheLocation : QString;
  DataLocation : QString;
  AppConfigLocation : QString;
  ConfigLocation : QString;
  homePath : QString;
  iconPath : QString;                   (* XDG::IconLookup::iconPath("albert") *)
  (* QCommandLineParser *)
  process_exits : option Z;             (* --help, --version or a bad option: process() exits *)
  positionalArguments : list QString;
  value_hotkey : option QString;        (* Some when --hotkey is set *)
  value_plugin_dirs : option (list QString);  (* Some when --plugin-dirs is set, already split *)
  (* client side of the socket *)
  waitForConnected : bool;
  serverReply : QByteArray;             (* bytes buffered once waitForReadyRead returns *)
  (* QLocalServer *)
  listen : bool;
  errorString : QString;
  (* file system *)
  mkpath : QString -> bool;
  exists_oldcfg : bool;
  exists_newcfg : bool;
  exists_firstrun_cache : bool;
  exists_firstrun_data : bool;
  exists_last_used_version : bool;
  open_last_used_version_ro : bool;
  majorVersionChanged : bool;           (* the two section('.',1,1) differ *)
  fileErrorString : QString;
  firstRunAnswerYes : bool;
  open_last_used_version_wo : bool;
  isDir : QString -> bool;
  canonicalFilePath : QString -> QString;
  exists_running : bool;
  open_running : bool;
  (* settings and hotkey *)
  standsalone_note_shown : bool;
  settings_hotkey : option QString;
  registerHotkey : QString -> bool;
  hotkeyAnswerYes : bool;
  (* database *)
  db_isValid : bool;
  db_hasTransactions : bool;
  db_open : bool;
  db_transaction : bool;
  db_commit : bool;
  now : Z;                              (* 'now', ms since the Unix epoch *)
  sql_fault : Stmt -> bool;             (* the engine refuses the statement *)
  lastErrorText : Stmt -> QString;
  (* event loop *)
  exec_retval : Z
}.

(** ** The world the program runs in *)

Record World := {
  events : list Event;                   (* oldest first *)
  ticks : nat;                           (* number of clock reads so far *)
  tables : gmap string Table;            (* what the open connection sees *)
  txn : option (gmap string Table);      (* rollback copy while a transaction is open *)
  pending : list QByteArray              (* accepted connections not yet picked up,
                                            each with the bytes it delivers in time *)
}.

(** What is on disk if the process stops now. *)
Definition durable (w : World) : gmap string Table :=
  match txn w with
  | Some snapshot => snapshot
  | None => tables w
  end.

(** ** A state monad with process exit *)

Inductive Outcome (A : Type) :=
| Returned (a : A)
| Exited (status : Z)       (* ::exit(status) *)
| Crashed.                  (* abort(), or a null pointer dereference *)
Arguments Returned {A} a.
Arguments Exited {A} status.
Arguments Crashed {A}.

Definition M (A : Type) : Type := World -> Outcome A * World.

Definition ret {A} (a : A) : M A := fun w => (Returned a, w).

Definition bind {A B} (m : M A) (k : A -> M B) : M B := fun w =>
  match m w with
  | (Returned a, w') => k a w'
  | (Exited s, w') => (Exited s, w')
  | (Crashed, w') => (Crashed, w')
  end.

Declare Scope prog_scope.
Delimit Scope prog_scope with prog.
Bind Scope prog_scope with M.
Notation "x <- m ;; k" := (bind m (fun x => k))
  (at level 20, m at level 99, k at level 200, only parsing) : prog_scope.
Notation "m ;; k" := (bind m (fun _ => k))
  (at level 100, k at level 200, only parsing, right associativity) : prog_scope.
Local Open Scope prog_scope.

Definition exit {A} (status : Z) : M A := fun w => (Exited status, w).
Definition crash {A} : M A := fun w => (Crashed, w).

Definition emit (e : Event) : M unit := fun w =>
  (Returned tt,
   {| events := (events w ++ [e])%list; ticks := ticks w; tables := tables w;
      txn := txn w; pending := pending w |}).

Definition when (b : bool) (m : M unit) : M unit := if b then m else ret tt.

Fixpoint forEach {A} (l : list A) (body : A -> M unit) : M unit :=
  match l with
  | [] => ret tt
  | x :: l' => body x ;; forEach l' body
  end.

(** ** SQLite: the meaning of the statements the program executes *)

Definition unixEpochJulianDay : Q := 24405875 # 10.
Definition msPerDay : Z := 86400000.

(** [julianday('now')] for a clock reading of [ms]. *)
Definition julianday_now (ms : Z) : Q := (inject_Z ms / inject_Z msPerDay + unixEpochJulianDay)%Q.

(** [julianday(v)]: [None] is SQL NULL.  A number is taken as a Julian day
    number, text that is not a time string gives NULL. *)
Definition julianday (v : Value) : option Q :=
  match v with
  | VDateTime ms => Some (julianday_now ms)
  | VInteger n => if (0 <=? n) && (n <=? 5373484) then Some (inject_Z n) else None
  | VText _ => None
  | VNull => None
  end.

(** [julianday('now') - julianday(v) > days]; a NULL comparison selects nothing. *)
Definition olderThan (now_ms : Z) (days : Z) (v : Value) : bool :=
  match julianday v with
  | Some j => negb (Qle_bool (julianday_now now_ms - j) (inject_Z days))
  | None => false
  end.

Definition cell (r : gmap string Value) (column : string) : Value :=
  match r !! column with
  | Some v => v
  | None => VNull
  end.

Definition hasColumn (t : Table) (column : string) : bool :=
  existsb (String.eqb column) (map col_name (columns t)).

(** One statement against the tables; [None] is an SQL error and leaves the
    tables as they were. *)
Definition sqlite_step (now_ms : Z) (s : Stmt) (db : gmap string Table)
  : option (gmap string Table) :=
  match s with
  | CreateTableIfNotExists name cols =>
      match db !! name with
      | Some _ => Some db
      | None => Some (<[name := {| columns := cols; rows := [] |}]> db)
      end
  | DeleteOlderThan table column days =>
      match db !! table with
      | None => None                                   (* no such table *)
      | Some t =>
          if hasColumn t column then
            Some (<[table := {| columns := columns t;
                                rows := List.filter
                                          (fun r => negb (olderThan now_ms days (cell r column)))
                                          (rows t) |}]> db)
          else None                                    (* no such column *)
      end
  end.

(** The statements of [run], in the order they are executed. *)
Definition create_usages : Stmt :=
  CreateTableIfNotExists "usages"
    [ {| col_name := "input"; col_type := TEXT; col_not_null := true;
         col_default_current_timestamp := false |};
      {| col_name := "itemId"; col_type := TEXT; col_not_null := false;
         col_default_current_timestamp := false |};
      {| col_name := "timestamp"; col_type := DATETIME; col_not_null := false;
         col_default_current_timestamp := true |} ].

Definition create_runtimes : Stmt :=
  CreateTableIfNotExists "runtimes"
    [ {| col_name := "extensionId"; col_type := TEXT; col_not_null := true;
         col_default_current_timestamp := false |};
      {| col_name := "runtime"; col_type := INTEGER; col_not_null := true;
         col_default_current_timestamp := false |};
      {| col_name := "timestamp"; col_type := DATETIME; col_not_null := false;
         col_default_current_timestamp := true |} ].

Definition cleanup_usages : Stmt := DeleteOlderThan "usages" "timestamp" 90.
Definition cleanup_runtimes : Stmt := DeleteOlderThan "runtimes" "timestamp" 7.

(** ** Small helpers on bytes and paths *)

Definition bytesAvailable (buffered : QByteArray) : Z := Z.of_nat (length buffered).

(** What [printf("%s", b.constData())] prints: the bytes before the first NUL. *)
Fixpoint constData (b : QByteArray) : QByteArray :=
  match b with
  | [] => []
  | c :: b' => if Byte.eqb c x00 then [] else c :: constData b'
  end.

Fixpoint isPrefixOf (p l : QByteArray) : bool :=
  match p, l with
  | [], _ => true
  | _ :: _, [] => false
  | a :: p', b :: l' => Byte.eqb a b && isPrefixOf p' l'
  end.

Fixpoint contains (needle hay : QByteArray) : bool :=
  isPrefixOf needle hay ||
  match hay with
  | [] => false
  | _ :: hay' => contains needle hay'
  end.

Fixpoint endsWithSlash (s : string) : bool :=
  match s with
  | EmptyString => false
  | String c EmptyString => Ascii.eqb c "/"
  | String _ s' => endsWithSlash s'
  end.

(** [QDir(dir).filePath(name)] for a relative [name]. *)
Definition filePath (dir name : QString) : QString :=
  if endsWithSlash dir then dir ++ name else dir ++ "/" ++ name.

Definition ESC : string := String "027" "".
Definition LF : string := String "010" "".

Definition SIGHUP : Z := 1.
Definition SIGINT : Z := 2.
Definition SIGPIPE : Z := 13.
Definition SIGTERM : Z := 15.

(** ** The program *)

Section Program.

Variable env : Env.

(** *** Logging: [myMessageOutput] and the Qt macros that call it *)

Definition timeString : M QByteArray := fun w =>
  (Returned (constData (toLocal8Bit env (currentTime env (ticks w)))),
   {| events := events w; ticks := S (ticks w); tables := tables w;
      txn := txn w; pending := pending w |}).

Definition myMessageOutput (type : QtMsgType) (context : QMessageLogContext)
    (message : QString) : M unit :=
  let msg := constData (toLocal8Bit env message) in
  let fn := cstr (function context) in
  match type with
  | QtDebugMsg =>
      t <- timeString ;;
      emit (Fprintf stdout
              (cstr "[" ++ t ++ cstr ("] " ++ ESC ++ "[3m[DEBG] ") ++ msg
               ++ cstr (ESC ++ "[0m" ++ LF))%list) ;;
      emit (Fflush stdout)
  | QtInfoMsg =>
      t <- timeString ;;
      emit (Fprintf stdout (cstr "[" ++ t ++ cstr "] [INFO] " ++ msg ++ cstr LF)%list) ;;
      emit (Fflush stdout)
  | QtWarningMsg =>
      t <- timeString ;;
      emit (Fprintf stderr
              (cstr "[" ++ t ++ cstr ("] " ++ ESC ++ "[33;1m[WARN]" ++ ESC ++ "[0;1m ") ++ msg
               ++ cstr "  --  [" ++ fn ++ cstr ("]" ++ ESC ++ "[0m" ++ LF))%list)
  | QtCriticalMsg =>
      t <- timeString ;;
      emit (Fprintf stderr
              (cstr "[" ++ t ++ cstr ("] " ++ ESC ++ "[31;1m[CRIT]" ++ ESC ++ "[0;1m ") ++ msg
               ++ cstr "  --  [" ++ fn ++ cstr ("]" ++ ESC ++ "[0m" ++ LF))%list)
  | QtFatalMsg =>
      t <- timeString ;;
      emit (Fprintf stderr
              (cstr "[" ++ t ++ cstr ("] " ++ ESC ++ "[41;30;4m[FATAL]" ++ ESC ++ "[0;1m ") ++ msg
               ++ cstr "  --  [" ++ fn ++ cstr ("]" ++ ESC ++ "[0m" ++ LF))%list) ;;
      exit 1
  end.

(** The text a [QDebug] stream hands to the handler: the items separated by
    one space. *)
Definition render (i : StreamItem) : QString :=
  match i with
  | Lit s => s
  | QStr s => quoted env s
  | QBytes b => quotedBytes env b
  end.

Definition streamed (items : list StreamItem) : QString :=
  String.concat " " (map render items).

Definition qDebug (items : list StreamItem) : M unit :=
  myMessageOutput QtDebugMsg (context env) (streamed items).
Definition qInfo (items : list StreamItem) : M unit :=
  myMessageOutput QtInfoMsg (context env) (streamed items).
Definition qWarning (items : list StreamItem) : M unit :=
  myMessageOutput QtWarningMsg (context env) (streamed items).
Definition qCritical (items : list StreamItem) : M unit :=
  myMessageOutput QtCriticalMsg (context env) (streamed items).

(** [qFatal] calls the handler and then aborts; the handler above never
    returns from a fatal message. *)
Definition qFatal {A} (message : QString) : M A :=
  myMessageOutput QtFatalMsg (context env) message ;; crash.

(** *** [dispatchMessage]: the running instance serves one connection *)

Definition nextPendingConnection : M (option QByteArray) := fun w =>
  match pending w with
  | [] => (Returned None, w)
  | socket :: rest =>
      (Returned (Some socket),
       {| events := events w; ticks := ticks w; tables := tables w;
          txn := txn w; pending := rest |})
  end.

Definition dispatchMessage : M unit :=
  emit ServerNextPendingConnection ;;
  socket <- nextPendingConnection ;;
  match socket with
  | None => crash
  | Some buffered =>
      emit (SocketWaitForReadyRead 500) ;;
      (if negb (bytesAvailable buffered =? 0) then
         emit SocketReadAll ;;
         let msg := fromLocal8Bit env buffered in
         if String.eqb msg "show" then
           emit (FrontendSetVisible true) ;;
           emit (SocketWrite (cstr "Application set visible."))
         else if String.eqb msg "hide" then
           emit (FrontendSetVisible false) ;;
           emit (SocketWrite (cstr "Application set invisible."))
         else if String.eqb msg "toggle" then
           emit FrontendToggleVisibility ;;
           emit (SocketWrite (cstr "Visibility toggled."))
         else
           emit (SocketWrite (cstr "Command not supported."))
       else ret tt) ;;
      emit SocketFlush ;;
      emit SocketClose ;;
      emit SocketDeleteLater
  end.

(** *** [Core::AlbertApp::run], section by section *)

Definition applicationVersion : QString := "v0.12.0".

Definition socketPath : QString := CacheLocation env ++ "/socket".

(** INITIALIZE APPLICATION *)
Definition initializeApplication : M unit :=
  qDebug [Lit "Initializing application"] ;;
  emit AppNew ;;
  emit (AppSetApplicationName "albert") ;;
  emit (AppSetApplicationDisplayName "Albert") ;;
  emit (AppSetApplicationVersion applicationVersion) ;;
  emit (AppSetQuitOnLastWindowClosed false) ;;
  let icon := iconPath env in
  let icon := if String.eqb icon "" then ":app_icon" else icon in
  emit (AppSetWindowIcon icon).

(** PARSE COMMANDLINE *)
Definition parseCommandline : M unit :=
  qDebug [Lit "Parsing commandline"] ;;
  match process_exits env with
  | Some status => exit status
  | None => ret tt
  end.

(** IPC/SINGLETON MECHANISM *)
Definition singletonMechanism : M unit :=
  qDebug [Lit "Checking for other instances"] ;;
  let args := positionalArguments env in
  emit (SocketConnectToServer socketPath) ;;
  emit (SocketWaitForConnected 500) ;;
  (if waitForConnected env then
     (if Z.of_nat (length args) =? 1 then
        emit (SocketWrite (toLocal8Bit env (nth 0 args ""))) ;;
        emit SocketFlush ;;
        emit (SocketWaitForReadyRead 500) ;;
        when (negb (bytesAvailable (serverReply env) =? 0))
          (emit SocketReadAll ;;
           qInfo [QBytes (serverReply env)])
      else
        qInfo [Lit "There is another instance of albert running."]) ;;
     emit SocketClose ;;
     exit EXIT_SUCCESS
   else if Z.of_nat (length args) =? 1 then
     qInfo [Lit "There is no other instance of albert running."] ;;
     exit EXIT_FAILURE
   else ret tt) ;;
  (* Remove pipes potentially leftover after crash *)
  emit (ServerRemoveServer socketPath) ;;
  (* Create server and handle messages *)
  qDebug [Lit "Creating IPC server"] ;;
  emit (ServerListen socketPath) ;;
  when (negb (listen env))
    (qWarning [Lit "Local server could not be created. IPC will not work! Reason:";
               QStr (errorString env)]) ;;
  (* Handle incoming messages *)
  emit ServerConnectNewConnection.

(** INITIALIZE PATHS *)
Definition initializePaths : M unit :=
  qDebug [Lit "Initializing mandatory paths"] ;;
  forEach [DataLocation env; CacheLocation env; AppConfigLocation env]
    (fun location =>
       emit (DirMkpath location) ;;
       when (negb (mkpath env location))
         (qFatal ("Could not create dir: " ++ location))) ;;
  emit (SettingsSetPath (AppConfigLocation env)) ;;
  let oldcfg := ConfigLocation env ++ "/albert.conf" in
  let newcfg := ConfigLocation env ++ "/albert/albert.conf" in
  when (exists_oldcfg env)
    (when (exists_newcfg env) (emit (FileRemove newcfg)) ;;
     emit (FileRename oldcfg newcfg)).

(** DETECT FIRST RUN AND VERSION CHANGE; returns [showSettingsWhenInitialized]. *)
Definition detectFirstRun : M bool :=
  let cacheLocation := CacheLocation env in
  let dataLocation := DataLocation env in
  when (exists_firstrun_cache env)
    (qDebug [Lit "Moving 'firstrun' to new path"] ;;
     emit (FileRename (cacheLocation ++ "/firstrun") (dataLocation ++ "/firstrun"))) ;;
  when (exists_firstrun_data env)
    (qDebug [Lit "Renaming 'firstrun' to 'last_used_version'"]) ;;
  (* the rename is not under the if *)
  emit (FileRename (dataLocation ++ "/firstrun") (dataLocation ++ "/last_used_version")) ;;
  qDebug [Lit "Checking last used version"] ;;
  let file := dataLocation ++ "/last_used_version" in
  showSettingsWhenInitialized <-
    (if exists_last_used_version env then
       (if open_last_used_version_ro env then
          when (majorVersionChanged env) (emit (MessageBox "Major version changed"))
        else
          qCritical [Lit ("Could not open file " ++ file ++ ": " ++ fileErrorString env
                          ++ ",. Config migration may fail.")]) ;;
       ret false
     else
       emit (MessageBox "First run") ;;
       ret (firstRunAnswerYes env)) ;;
  (* Write the current version into the file *)
  (if open_last_used_version_wo env then
     emit (FileWrite file applicationVersion)
   else
     qCritical [Lit ("Could not open file " ++ file ++ ": " ++ fileErrorString env)]) ;;
  ret showSettingsWhenInitialized.

(** INITIALIZE DATABASE *)
Definition transaction : M unit := fun w =>
  (Returned tt,
   {| events := (events w ++ [DbTransaction])%list; ticks := ticks w; tables := tables w;
      txn := match txn w with
             | None => if db_transaction env then Some (tables w) else None
             | Some snapshot => Some snapshot
             end;
      pending := pending w |}).

Definition commit : M unit := fun w =>
  (Returned tt,
   {| events := (events w ++ [DbCommit])%list; ticks := ticks w; tables := tables w;
      txn := if db_commit env then None else txn w;
      pending := pending w |}).

(** [QSqlQuery::exec]: [true] when the statement ran. *)
Definition exec (s : Stmt) : M bool := fun w =>
  let w' := {| events := (events w ++ [DbExec s])%list; ticks := ticks w;
               tables := tables w; txn := txn w; pending := pending w |} in
  if sql_fault env s then (Returned false, w')
  else
    match sqlite_step (now env) s (tables w) with
    | None => (Returned false, w')
    | Some db' =>
        (Returned true,
         {| events := events w'; ticks := ticks w; tables := db';
            txn := txn w; pending := pending w |})
    end.

Definition initializeDatabase : M unit :=
  qDebug [Lit "Initializing database"] ;;
  emit (DbAddDatabase "QSQLITE") ;;
  when (negb (db_isValid env))
    (qFatal "No sqlite available") ;;
  when (negb (db_hasTransactions env))
    (qFatal "QSqlDriver::Transactions not available.") ;;
  emit (DbSetDatabaseName (filePath (CacheLocation env) "core.db")) ;;
  emit DbOpen ;;
  when (negb (db_open env))
    (qFatal "Unable to establish a database connection.") ;;
  transaction ;;
  (* Create tables *)
  ok <- exec create_usages ;;
  when (negb ok)
    (qFatal ("Unable to create table 'usages': " ++ lastErrorText env create_usages)) ;;
  ok <- exec create_runtimes ;;
  when (negb ok)
    (qFatal ("Unable to create table 'runtimes': " ++ lastErrorText env create_runtimes)) ;;
  (* Do regular cleanup *)
  ok <- exec cleanup_usages ;;
  when (negb ok)
    (qWarning [Lit "Unable to cleanup usages table."]) ;;
  ok <- exec cleanup_runtimes ;;
  when (negb ok)
    (qWarning [Lit "Unable to cleanup runtimes table."]) ;;
  commit.

(** INITIALIZE APPLICATION COMPONENTS (the [__linux__] branch) *)
Definition defaultPluginDirs : list QString :=
  let dirs := [ "/usr/lib/"; "/usr/local/lib/"; "/usr/lib64/"; "/usr/local/lib64/";
                filePath (homePath env) ".local/lib/";
                filePath (homePath env) ".local/lib64/" ] in
  map (canonicalFilePath env)
      (List.filter (isDir env) (map (fun dir => filePath dir "albert/plugins") dirs)).

Definition initializeComponents : M unit :=
  qDebug [Lit "Initializing core components"] ;;
  let pluginDirs := match value_plugin_dirs env with
                    | Some dirs => dirs
                    | None => defaultPluginDirs
                    end in
  emit (NewFrontendManager pluginDirs) ;;
  emit (NewExtensionManager pluginDirs) ;;
  emit ReloadExtensions ;;
  emit NewHotkeyManager ;;
  emit NewQueryManager.

(** Build Tray Icon *)
Definition buildTrayIcon : M unit :=
  qDebug [Lit "Initializing tray icon"] ;;
  emit NewTrayIcon ;;
  emit (TrayMenu ["Show"; "Settings"; "Quit"]).

(** Standalone note *)
Definition standaloneNote : M unit :=
  when (negb (standsalone_note_shown env))
    (emit (MessageBox "Note") ;;
     emit (SettingsSetValue "standsalone_note_shown" true)).

(** Hotkey; takes and returns [showSettingsWhenInitialized]. *)
Definition setupHotkey (showSettingsWhenInitialized : bool) : M bool :=
  qDebug [Lit "Setting up hotkey"] ;;
  match value_hotkey env with
  | Some hotkey =>
      emit (RegisterHotkey hotkey) ;;
      when (negb (registerHotkey env hotkey))
        (qFatal ("Failed to set hotkey to " ++ hotkey ++ ".")) ;;
      ret showSettingsWhenInitialized
  | None =>
      match settings_hotkey env with
      | Some hotkey =>
          emit (RegisterHotkey hotkey) ;;
          if negb (registerHotkey env hotkey) then
            emit (MessageBox "Error") ;;
            ret (if hotkeyAnswerYes env then true else showSettingsWhenInitialized)
          else ret showSettingsWhenInitialized
      | None => ret showSettingsWhenInitialized
      end
  end.

(** MISC *)
Definition misc (showSettingsWhenInitialized : bool) : M unit :=
  qDebug [Lit "Setup signal handlers"] ;;
  forEach [SIGINT; SIGTERM; SIGHUP; SIGPIPE] (fun sig => emit (InstallSignalHandler sig)) ;;
  qDebug [Lit "Creating running indicator file"] ;;
  let filePath := CacheLocation env ++ "/running" in
  (if exists_running env then
     qWarning [Lit "Application has not been terminated graciously."]
   else
     if negb (open_running env) then
       qWarning [Lit "Could not create file:"; QStr filePath]
     else emit (FileWrite filePath "")) ;;
  qDebug [Lit "Creating settings widget"] ;;
  emit NewSettingsWidget ;;
  when showSettingsWhenInitialized (emit SettingsWidgetShow).

(** SIGNALING *)
Definition signaling : M unit :=
  qDebug [Lit "Setting up signals"] ;;
  emit ConnectTrayMenu ;;
  emit ConnectFrontend ;;
  emit ConnectFrontendChanged.

(** ENTER EVENTLOOP: [app->exec()] calls [dispatchMessage] once for every
    connection the listening server accepts, then returns.  Of the event loop
    only the gateway's traffic is embedded, and [pending] holds the
    connections that are served here.  A message box of the start-up is one
    event above: [QMessageBox::exec] runs an event loop of its own, in which
    the handler, connected in the gateway section, would already be called,
    and no client is taken to connect while one is open. *)
Fixpoint serve (connections : nat) : M unit :=
  match connections with
  | O => ret tt
  | S n => dispatchMessage ;; serve n
  end.

Definition app_exec : M Z := fun w =>
  (emit AppExec ;;
   serve (if listen env then length (pending w) else 0%nat) ;;
   ret (exec_retval env)) w.

(** FINALIZE APPLICATION *)
Definition finalizeApplication : M unit :=
  qDebug [Lit "Cleaning up core components"] ;;
  emit DeleteComponents ;;
  qDebug [Lit "Shutting down IPC server"] ;;
  emit ServerClose ;;
  qDebug [Lit "Deleting running indicator file"] ;;
  emit (FileRemove (CacheLocation env ++ "/running")) ;;
  qDebug [Lit "Quit"].

(** What follows the gateway section, up to the event loop. *)
Definition remainingInitialization : M unit :=
  initializePaths ;;
  showSettingsWhenInitialized <- detectFirstRun ;;
  initializeDatabase ;;
  initializeComponents ;;
  buildTrayIcon ;;
  standaloneNote ;;
  showSettingsWhenInitialized <- setupHotkey showSettingsWhenInitialized ;;
  misc showSettingsWhenInitialized ;;
  signaling.

(** Everything before the event loop. *)
Definition startup : M unit :=
  initializeApplication ;;
  parseCommandline ;;
  singletonMechanism ;;
  remainingInitialization.

Definition run : M Z :=
  startup ;;
  qDebug [Lit "Entering eventloop"] ;;
  retval <- app_exec ;;
  finalizeApplication ;;
  ret retval.

End Program.

(** A process starts with nothing written and no transaction open. *)
Definition start (db : gmap string Table) (connections : list QByteArray) : World :=
  {| events := []; ticks := 0; tables := db; txn := None; pending := connections |}.

(** ** Reading results *)

Definition outcome {A} (r : Outcome A * World) : Outcome A := fst r.
Definition final {A} (r : Outcome A * World) : World := snd r.

(** The world [w] after [evs] more events, with the next connection taken. *)
Definition served (w : World) (evs : list Event) : World :=
  {| events := (events w ++ evs)%list; ticks := ticks w; tables := tables w;
     txn := txn w; pending := tl (pending w) |}.

(** The world [w] after [evs] more events and [reads] more clock reads. *)
Definition logged (w : World) (evs : list Event) (reads : nat) : World :=
  {| events := (events w ++ evs)%list; ticks := (reads + ticks w)%nat; tables := tables w;
     txn := txn w; pending := pending w |}.

(** What one message puts on stdout or stderr when the clock has been read
    [tick] times before. *)
Definition line (env : Env) (type : QtMsgType) (message : QString) (tick : nat)
  : list Event :=
  events (final (myMessageOutput env type (context env) message
                   {| events := []; ticks := tick; tables := ∅; txn := None;
                      pending := [] |})).

(** The log up to the point where the outcome of [waitForConnected] is known,
    for a process that starts at tick 0. *)
Definition preamble (env : Env) : list Event :=
  (line env QtDebugMsg "Initializing application" 0
   ++ [AppNew; AppSetApplicationName "albert"; AppSetApplicationDisplayName "Albert";
       AppSetApplicationVersion "v0.12.0"; AppSetQuitOnLastWindowClosed false;
       AppSetWindowIcon (if String.eqb (iconPath env) "" then ":app_icon" else iconPath env)]
   ++ line env QtDebugMsg "Parsing commandline" 1
   ++ line env QtDebugMsg "Checking for other instances" 2
   ++ [SocketConnectToServer (CacheLocation env ++ "/socket"); SocketWaitForConnected 500])%list.

Definition isFrontendAction (e : Event) : bool :=
  match e with
  | FrontendSetVisible _ | FrontendToggleVisibility => true
  | _ => false
  end.

Definition isWaitForReadyRead (e : Event) : bool :=
  match e with
  | SocketWaitForReadyRead _ => true
  | _ => false
  end.

(** The bytes a trace puts on the socket, in order. *)
Fixpoint written (evs : list Event) : QByteArray :=
  match evs with
  | [] => []
  | SocketWrite data :: evs' => (data ++ written evs')%list
  | _ :: evs' => written evs'
  end.

(** ** Independence from the log *)


(** The same environment, except that [listen] succeeds. *)
Definition bindSucceeds (env : Env) : Env :=
  {| currentTime := currentTime env;
     context := context env;
     quoted := quoted env;
     quotedBytes := quotedBytes env;
     toLocal8Bit := toLocal8Bit env;
     fromLocal8Bit := fromLocal8Bit env;
     CacheLocation := CacheLocation env;
     DataLocation := DataLocation env;
     AppConfigLocation := AppConfigLocation env;
     ConfigLocation := ConfigLocation env;
     homePath := homePath env;
     iconPath := iconPath env;
     process_exits := process_exits env;
     positionalArguments := positionalArguments env;
     value_hotkey := value_hotkey env;
     value_plugin_dirs := value_plugin_dirs env;
     waitForConnected := waitForConnected env;
     serverReply := serverReply env;
     listen := true;
     errorString := errorString env;
     mkpath := mkpath env;
     exists_oldcfg := exists_oldcfg env;
     exists_newcfg := exists_newcfg env;
     exists_firstrun_cache := exists_firstrun_cache env;
     exists_firstrun_data := exists_firstrun_data env;
     exists_last_used_version := exists_last_used_version env;
     open_last_used_version_ro := open_last_used_version_ro env;
     majorVersionChanged := majorVersionChanged env;
     fileErrorString := fileErrorString env;
     firstRunAnswerYes := firstRunAnswerYes env;
     open_last_used_version_wo := open_last_used_version_wo env;
     isDir := isDir env;
     canonicalFilePath := canonicalFilePath env;
     exists_running := exists_running env;
     open_running := open_running env;
     standsalone_note_shown := standsalone_note_shown env;
     settings_hotkey := settings_hotkey env;
     registerHotkey := registerHotkey env;
     hotkeyAnswerYes := hotkeyAnswerYes env;
     db_isValid := db_isValid env;
     db_hasTransactions := db_hasTransactions env;
     db_open := db_open env;
     db_transaction := db_transaction env;
     db_commit := db_commit env;
     now := now env;
     sql_fault := sql_fault env;
     lastErrorText := lastErrorText env;
     exec_retval := exec_retval env |}.

(** Two worlds that differ at most in what has been logged and in how often
    the clock has been read. *)
Definition sameStore (w w' : World) : Prop :=
  tables w = tables w' /\ txn w = txn w' /\ pending w = pending w'.

(** A computation whose result and whose effect on the store do not depend
    on the log or on the clock. *)
Definition oblivious {A} (m : M A) : Prop :=
  forall w w', sameStore w w' ->
    outcome (m w) = outcome (m w') /\ sameStore (final (m w)) (final (m w')).

(** A computation that never hands control back. *)
Definition neverReturns {A} (m : M A) : Prop :=
  forall w a, outcome (m w) <> Returned a.

(** ** [exec] as a function of the tables *)

Definition runs (env : Env) (s : Stmt) (db : gmap string Table) : bool :=
  if sql_fault env s then false
  else match sqlite_step (now env) s db with
       | Some _ => true
       | None => false
       end.

Definition attempt (env : Env) (s : Stmt) (db : gmap string Table) : gmap string Table :=
  if sql_fault env s then db
  else match sqlite_step (now env) s db with
       | Some db' => db'
       | None => db
       end.

(** The tables after the two CREATE statements, and after all four. *)
Definition created (env : Env) (db : gmap string Table) : gmap string Table :=
  attempt env create_runtimes (attempt env create_usages db).

Definition opened (env : Env) (db : gmap string Table) : gmap string Table :=
  attempt env cleanup_runtimes (attempt env cleanup_usages (created env db)).

Definition rowsOf (db : gmap string Table) (name : string) : list (gmap string Value) :=
  match db !! name with
  | Some t => rows t
  | None => []
  end.

Definition columnNames (t : Table) : list string := map col_name (columns t).

(** Table name to column names. *)
Definition schema (db : gmap string Table) : gmap string (list string) :=
  columnNames <$> db.

Definition usagesColumns : list string := ["input"; "itemId"; "timestamp"].
Definition runtimesColumns : list string := ["extensionId"; "runtime"; "timestamp"].

(** ** A desktop to run the definitions on *)

Definition DQUOTE : string := String "034" "".

Definition desktop (args : list QString) (connected : bool) (reply : QByteArray)
    (listens : bool) (sqlite : bool) : Env :=
  {| currentTime := fun _ => "12:00:00";
     context := {| function := "int Core::AlbertApp::run(int, char**)" |};
     quoted := fun s => DQUOTE ++ s ++ DQUOTE;
     quotedBytes := fun b => DQUOTE ++ string_of_list_byte b ++ DQUOTE;
     toLocal8Bit := list_byte_of_string;
     fromLocal8Bit := string_of_list_byte;
     CacheLocation := "/home/user/.cache/albert";
     DataLocation := "/home/user/.local/share/albert";
     AppConfigLocation := "/home/user/.config/albert";
     ConfigLocation := "/home/user/.config";
     homePath := "/home/user";
     iconPath := "";
     process_exits := None;
     positionalArguments := args;
     value_hotkey := None;
     value_plugin_dirs := None;
     waitForConnected := connected;
     serverReply := reply;
     listen := listens;
     errorString := "QLocalServer::listen: Permission denied";
     mkpath := fun _ => true;
     exists_oldcfg := false;
     exists_newcfg := false;
     exists_firstrun_cache := false;
     exists_firstrun_data := false;
     exists_last_used_version := true;
     open_last_used_version_ro := true;
     majorVersionChanged := false;
     fileErrorString := "";
     firstRunAnswerYes := false;
     open_last_used_version_wo := true;
     isDir := fun dir => String.eqb dir "/usr/lib/albert/plugins";
     canonicalFilePath := fun path => path;
     exists_running := false;
     open_running := true;
     standsalone_note_shown := true;
     settings_hotkey := Some "Alt+Space";
     registerHotkey := fun _ => true;
     hotkeyAnswerYes := false;
     db_isValid := sqlite;
     db_hasTransactions := true;
     db_open := true;
     db_transaction := true;
     db_commit := true;
     now := 1700000000000;
     sql_fault := fun _ => false;
     lastErrorText := fun _ => "";
     exec_retval := 0 |}.

(** No other instance, no command: this process becomes the instance. *)
Definition primary : Env := desktop [] false [] true true.
(** The same, but the endpoint cannot be bound. *)
Definition unbound : Env := desktop [] false [] false true.
(** The same, but Qt was built without the SQLite driver. *)
Definition nosqlite : Env := desktop [] false [] true false.
(** A second invocation without a command. *)
Definition second : Env := desktop [] true [] true true.
(** [albert toggle] while an instance is running, and while none is. *)
Definition toggler : Env := desktop ["toggle"] true (cstr "Visibility toggled.") true true.
Definition orphan : Env := desktop ["toggle"] false [] true true.

Definition days (n : Z) : Z := n * msPerDay.

Definition usage (input itemId : string) (age : Z) : gmap string Value :=
  {[ "input" := VText input; "itemId" := VText itemId;
     "timestamp" := VDateTime (1700000000000 - age) ]}.

Definition sample (extensionId : string) (runtime age : Z) : gmap string Value :=
  {[ "extensionId" := VText extensionId; "runtime" := VInteger runtime;
     "timestamp" := VDateTime (1700000000000 - age) ]}.

Definition columnsOf (s : Stmt) : list Column :=
  match s with
  | CreateTableIfNotExists _ cols => cols
  | DeleteOlderThan _ _ _ => []
  end.

(** A store with one record on either side of each retention window. *)
Definition usagesTable : Table :=
  {| columns := columnsOf create_usages;
     rows := [usage "fire" "applications.firefox" (days 91);
              usage "term" "applications.xterm" (days 89)] |}.

Definition runtimesTable : Table :=
  {| columns := columnsOf create_runtimes;
     rows := [sample "applications" 1200 (days 8);
              sample "files" 35000 (days 6)] |}.

Definition cachedb : gmap string Table :=
  {[ "usages" := usagesTable; "runtimes" := runtimesTable ]}.

(** A store that something else has written: a table [usages] with a single
    column, and a table of another name. *)
Definition legacy : gmap string Table :=
  {[ "usages" :=
       {| columns := [ {| col_name := "input"; col_type := TEXT; col_not_null := true;
                          col_default_current_timestamp := false |} ];
          rows := [] |};
     "bookmarks" :=
       {| columns := [ {| col_name := "url"; col_type := TEXT; col_not_null := true;
                          col_default_current_timestamp := false |} ];
          rows := [] |} ]}.

(** * Closed forms and observations for whole runs *)

(** ** One connection, in closed form *)

(** What the instance does to the front-end for the bytes of one connection. *)
Definition actionOf (env : Env) (buffered : QByteArray) : list Event :=
  if bytesAvailable buffered =? 0 then []
  else
    let msg := fromLocal8Bit env buffered in
    if String.eqb msg "show" then [FrontendSetVisible true]
    else if String.eqb msg "hide" then [FrontendSetVisible false]
    else if String.eqb msg "toggle" then [FrontendToggleVisibility]
    else [].

(** What it writes back. *)
Definition replyTo (env : Env) (buffered : QByteArray) : QByteArray :=
  if bytesAvailable buffered =? 0 then []
  else
    let msg := fromLocal8Bit env buffered in
    if String.eqb msg "show" then cstr "Application set visible."
    else if String.eqb msg "hide" then cstr "Application set invisible."
    else if String.eqb msg "toggle" then cstr "Visibility toggled."
    else cstr "Command not supported.".

(** Everything it does for one connection. *)
Definition serviceOf (env : Env) (buffered : QByteArray) : list Event :=
  ([ServerNextPendingConnection; SocketWaitForReadyRead 500]
   ++ (if bytesAvailable buffered =? 0 then []
       else [SocketReadAll] ++ actionOf env buffered ++ [SocketWrite (replyTo env buffered)])
   ++ [SocketFlush; SocketClose; SocketDeleteLater])%list.

(** The world after [evs] more events with the first [n] connections gone. *)
Definition drained (w : World) (evs : list Event) (n : nat) : World :=
  {| events := (events w ++ evs)%list; ticks := ticks w; tables := tables w;
     txn := txn w; pending := drop n (pending w) |}.


Definition isSocketWrite (e : Event) : bool :=
  match e with
  | SocketWrite _ => true
  | _ => false
  end.

(** ** How a run ends *)

(** A computation that ends the same way in every world. *)
Definition always {A} (m : M A) (o : Outcome A) : Prop :=
  forall w, outcome (m w) = o.

(** A computation that hands control back in every world. *)
Definition returns {A} (m : M A) : Prop :=
  forall w, exists a, outcome (m w) = Returned a.

(** How [run] ends, read off the environment alone: the checks in the order
    in which the program makes them. *)
Definition verdict (env : Env) : Outcome Z :=
  match process_exits env with
  | Some status => Exited status
  | None =>
      if waitForConnected env then Exited EXIT_SUCCESS
      else if Z.of_nat (length (positionalArguments env)) =? 1 then Exited EXIT_FAILURE
      else if negb (mkpath env (DataLocation env)) then Exited 1
      else if negb (mkpath env (CacheLocation env)) then Exited 1
      else if negb (mkpath env (AppConfigLocation env)) then Exited 1
      else if negb (db_isValid env) then Exited 1
      else if negb (db_hasTransactions env) then Exited 1
      else if negb (db_open env) then Exited 1
      else if sql_fault env create_usages then Exited 1
      else if sql_fault env create_runtimes then Exited 1
      else
        match value_hotkey env with
        | Some hotkey =>
            if registerHotkey env hotkey then Returned (exec_retval env) else Exited 1
        | None => Returned (exec_retval env)
        end
  end.

(** ** The store on disk *)

(** The rollback copy once [db.transaction()] has been called. *)
Definition begun (env : Env) (w : World) : option (gmap string Table) :=
  match txn w with
  | None => if db_transaction env then Some (tables w) else None
  | Some snapshot => Some snapshot
  end.

(** The database section ran through and its COMMIT succeeded. *)
Definition committed (env : Env) : bool :=
  db_isValid env && db_hasTransactions env && db_open env
  && negb (sql_fault env create_usages) && negb (sql_fault env create_runtimes)
  && db_commit env.

(** The rows of [t] the DELETE on [column] keeps, when it runs. *)
Definition pruneTable (now_ms : Z) (column : string) (days : Z) (t : Table) : Table :=
  if hasColumn t column then
    {| columns := columns t;
       rows := List.filter (fun r => negb (olderThan now_ms days (cell r column))) (rows t) |}
  else t.

(** ** What a run does to one kind of thing *)

(** [m], started with the connections [q] waiting, ends as [o], adds the
    events [l] among those that [P] selects, and leaves [q'] waiting. *)
Definition does {A} (P : Event -> bool) (m : M A) (q : list QByteArray)
    (o : Outcome A) (l : list Event) (q' : list QByteArray) : Prop :=
  forall w, pending w = q ->
    outcome (m w) = o
    /\ List.filter P (events (final (m w))) = (List.filter P (events w) ++ l)%list
    /\ pending (final (m w)) = q'.

Definition isServerEvent (e : Event) : bool :=
  match e with
  | ServerRemoveServer _ | ServerListen _ | ServerConnectNewConnection
  | ServerNextPendingConnection | ServerClose => true
  | _ => false
  end.

(** Whether the settings dialog is requested during start-up: on the first
    run, or when the stored hotkey cannot be registered, and the user says
    yes. *)
Definition settingsRequested (env : Env) : bool :=
  let firstRun := negb (exists_last_used_version env) && firstRunAnswerYes env in
  match value_hotkey env with
  | Some _ => firstRun
  | None =>
      match settings_hotkey env with
      | Some hotkey =>
          if registerHotkey env hotkey then firstRun
          else if hotkeyAnswerYes env then true else firstRun
      | None => firstRun
      end
  end.

(** The events by which a run acts on the endpoint, the socket's outgoing
    direction, the front-end and the settings dialog. *)
Definition isControl (e : Event) : bool :=
  match e with
  | ServerRemoveServer _ | ServerListen _ | ServerConnectNewConnection
  | ServerNextPendingConnection | ServerClose
  | SocketWrite _
  | FrontendSetVisible _ | FrontendToggleVisibility
  | SettingsWidgetShow => true
  | _ => false
  end.

(** A computation that does none of these and leaves the queue alone. *)
Definition quiet {A} (m : M A) : Prop :=
  forall w,
    List.filter isControl (events (final (m w))) = List.filter isControl (events w)
    /\ pending (final (m w)) = pending w.

(** The process gets past the gateway section. *)
Definition isInstance (env : Env) : bool :=
  match process_exits env with
  | Some _ => false
  | None =>
      negb (waitForConnected env)
      && negb (Z.of_nat (length (positionalArguments env)) =? 1)
  end.

Definition returned {A} (o : Outcome A) : bool :=
  match o with
  | Returned _ => true
  | _ => false
  end.

(** The control events of a whole run that starts with [q] waiting. *)
Definition controlTrace (env : Env) (q : list QByteArray) : list Event :=
  match process_exits env with
  | Some _ => []
  | None =>
      if waitForConnected env then
        if Z.of_nat (length (positionalArguments env)) =? 1
        then [SocketWrite (toLocal8Bit env (nth 0 (positionalArguments env) ""))]
        else []
      else if Z.of_nat (length (positionalArguments env)) =? 1 then []
      else
        ([ServerRemoveServer (socketPath env); ServerListen (socketPath env);
          ServerConnectNewConnection]
         ++ (if returned (verdict env) then
               (if settingsRequested env then [SettingsWidgetShow] else [])
               ++ (if listen env then flat_map (serviceOf env) q else [])
               ++ [ServerClose]
             else []))%list
  end.

(** ** Message boxes *)

Definition isMessageBox (e : Event) : bool :=
  match e with
  | MessageBox _ => true
  | _ => false
  end.

(** The run from [w] opens no message box: not the one of a first run or of
    a changed major version, not the note, not the one about a stored hotkey
    that cannot be registered.  On these runs no event loop runs before
    [app_exec], and the connections are served there and nowhere else. *)
Definition withoutDialog (env : Env) (w : World) : Prop :=
  List.filter isMessageBox (events (final (run env w)))
  = List.filter isMessageBox (events w).

(** ** Files and directories *)

Definition isFileOp (e : Event) : bool :=
  match e with
  | DirMkpath _ | SettingsSetPath _ | FileRemove _ | FileRename _ _ | FileWrite _ _ => true
  | _ => false
  end.

(** The stream a message of each severity goes to, and whether the handler
    flushes it. *)
Definition streamOf (type : QtMsgType) : Stream :=
  match type with
  | QtDebugMsg | QtInfoMsg => stdout
  | _ => stderr
  end.

Definition flushed (type : QtMsgType) : list Event :=
  match type with
  | QtDebugMsg | QtInfoMsg => [Fflush stdout]
  | _ => []
  end.

(** * Properties *)

(** ** The gateway, server side *)

Ltac step_world :=
  cbv [bind emit ret when exit crash nextPendingConnection served];
  cbn [events ticks tables txn pending negb];
  rewrite <- ?app_assoc; cbn [app].


(** A connection that delivers nothing is closed without a word. *)
Lemma dispatchMessage_silent (env : Env) (w : World) (rest : list QByteArray) :
  pending w = [] :: rest ->
  dispatchMessage env w =
    (Returned tt,
     served w [ServerNextPendingConnection; SocketWaitForReadyRead 500;
               SocketFlush; SocketClose; SocketDeleteLater]).
Proof.
  intros Hp. unfold dispatchMessage. step_world. rewrite Hp.
  change (bytesAvailable [] =? 0) with true. step_world. reflexivity.
Qed.

Lemma written_app (l l' : list Event) :
  written (l ++ l') = (written l ++ written l')%list.
Proof.
  induction l as [|e l IH]; [reflexivity|].
  destruct e; cbn [app written]; rewrite ?IH, <- ?app_assoc; reflexivity.
Qed.



(** C10. A connection that delivers no bytes within the wait gets no reply
    at all, not even the refusal, and causes no visibility action: the socket
    is flushed, closed and disposed of, nothing else. *)
Theorem dispatchMessage_no_bytes (env : Env) (w : World) (rest : list QByteArray) :
  pending w = [] :: rest ->
  dispatchMessage env w =
    (Returned tt,
     served w [ServerNextPendingConnection; SocketWaitForReadyRead 500;
               SocketFlush; SocketClose; SocketDeleteLater])
  /\ written (events (final (dispatchMessage env w))) = written (events w)
  /\ List.filter isFrontendAction (events (final (dispatchMessage env w)))
     = List.filter isFrontendAction (events w)
  /\ pending (final (dispatchMessage env w)) = rest.
Proof.
  intros Hp. rewrite (dispatchMessage_silent env w rest Hp).
  split; [reflexivity|].
  unfold final, served. cbn [snd events pending].
  rewrite written_app, List.filter_app, Hp. cbn.
  rewrite !app_nil_r. auto.
Qed.

(** An empty connection ahead of a [show]: only the empty one is taken. *)
Lemma dispatchMessage_no_bytes_witness :
  pending (start ∅ [[]; cstr "show"]) = [[]; cstr "show"]
  /\ final (dispatchMessage primary (start ∅ [[]; cstr "show"])) =
       {| events := [ServerNextPendingConnection; SocketWaitForReadyRead 500;
                     SocketFlush; SocketClose; SocketDeleteLater];
          ticks := 0; tables := ∅; txn := None; pending := [cstr "show"] |}.
Proof.
  split; [reflexivity|].
  destruct (dispatchMessage_no_bytes primary (start ∅ [[]; cstr "show"]) [cstr "show"] eq_refl)
    as (Hrun & _).
  rewrite Hrun. reflexivity.
Defined.

(** ** The gateway, client side *)

Ltac find_event := repeat first [left; reflexivity | right].

Lemma length_one {A} (l : list A) (x : A) :
  l = [x] -> (Z.of_nat (length l) =? 1) = true.
Proof. intros ->. reflexivity. Qed.

Lemma line_written (env : Env) (type : QtMsgType) (message : QString) (tick : nat) :
  written (line env type message tick) = [].
Proof. destruct type; reflexivity. Qed.

Lemma line_no_wait (env : Env) (type : QtMsgType) (message : QString) (tick : nat) :
  existsb isWaitForReadyRead (line env type message tick) = false.
Proof. destruct type; reflexivity. Qed.

(** C2. An invocation that connects and carries exactly one command token
    writes the token as it is, flushes, waits at most 500 ms for a reply,
    prints the reply when one has arrived, closes the socket and exits with
    success; when nothing arrives in time it prints nothing and still exits
    with success. *)
Theorem run_sends_command (env : Env) (db : gmap string Table)
    (connections : list QByteArray) (token : QString) :
  process_exits env = None ->
  waitForConnected env = true ->
  positionalArguments env = [token] ->
  run env (start db connections) =
    (Exited EXIT_SUCCESS,
     logged (start db connections)
       (preamble env
        ++ [SocketWrite (toLocal8Bit env token); SocketFlush; SocketWaitForReadyRead 500]
        ++ match serverReply env with
           | [] => []
           | _ :: _ => SocketReadAll :: line env QtInfoMsg (quotedBytes env (serverReply env)) 3
           end
        ++ [SocketClose])
       match serverReply env with [] => 3 | _ :: _ => 4 end).
Proof.
  intros Hparse Hconn Hargs.
  unfold run, startup, parseCommandline, singletonMechanism.
  rewrite Hparse, Hconn, (length_one _ _ Hargs), Hargs.
  destruct (serverReply env) as [|c reply] eqn:Hreply; reflexivity.
Qed.

(** [albert toggle] with an instance that answers. *)
Lemma run_sends_command_witness :
  process_exits toggler = None
  /\ waitForConnected toggler = true
  /\ positionalArguments toggler = ["toggle"]
  /\ outcome (run toggler (start cachedb [])) = Exited 0
  /\ written (events (final (run toggler (start cachedb [])))) = cstr "toggle"
  /\ In (Fprintf stdout (cstr ("[12:00:00] [INFO] " ++ DQUOTE ++ "Visibility toggled."
                               ++ DQUOTE ++ LF)))
        (events (final (run toggler (start cachedb [])))).
Proof.
  do 3 (split; [reflexivity|]).
  rewrite (run_sends_command toggler cachedb [] "toggle" eq_refl eq_refl eq_refl).
  vm_compute. repeat split. find_event.
Defined.

(** C3. An invocation that carries a command token and cannot connect says
    that no instance is running and exits with [EXIT_FAILURE], which is not
    the success status. *)
Theorem run_command_without_instance (env : Env) (db : gmap string Table)
    (connections : list QByteArray) (token : QString) :
  process_exits env = None ->
  waitForConnected env = false ->
  positionalArguments env = [token] ->
  run env (start db connections) =
    (Exited EXIT_FAILURE,
     logged (start db connections)
       (preamble env
        ++ line env QtInfoMsg "There is no other instance of albert running." 3)
       4)
  /\ EXIT_FAILURE <> 0.
Proof.
  intros Hparse Hconn Hargs.
  split; [|discriminate].
  unfold run, startup, parseCommandline, singletonMechanism.
  rewrite Hparse, Hconn, (length_one _ _ Hargs).
  reflexivity.
Qed.

(** [albert toggle] with nobody listening. *)
Lemma run_command_without_instance_witness :
  process_exits orphan = None
  /\ waitForConnected orphan = false
  /\ positionalArguments orphan = ["toggle"]
  /\ outcome (run orphan (start cachedb [])) = Exited 1
  /\ In (Fprintf stdout
           (cstr ("[12:00:00] [INFO] There is no other instance of albert running." ++ LF)))
        (events (final (run orphan (start cachedb [])))).
Proof.
  do 3 (split; [reflexivity|]).
  destruct (run_command_without_instance orphan cachedb [] "toggle" eq_refl eq_refl eq_refl)
    as [Hrun _].
  rewrite Hrun. vm_compute. split; [reflexivity|]. find_event.
Defined.

(** C4. An invocation that connects and carries no command token says that
    another instance is running, closes the socket and exits with success.  It
    puts no byte on the socket and never waits for a reply, and the running
    instance, which sees a connection without bytes, performs no visibility
    action and sends nothing. *)
Theorem run_second_instance (env : Env) (db : gmap string Table)
    (connections : list QByteArray) :
  process_exits env = None ->
  waitForConnected env = true ->
  positionalArguments env = [] ->
  run env (start db connections) =
    (Exited EXIT_SUCCESS,
     logged (start db connections)
       (preamble env
        ++ line env QtInfoMsg "There is another instance of albert running." 3
        ++ [SocketClose])
       4)
  /\ written (events (final (run env (start db connections)))) = []
  /\ existsb isWaitForReadyRead (events (final (run env (start db connections)))) = false
  /\ forall (running : Env) (w : World) (rest : list QByteArray),
       pending w = written (events (final (run env (start db connections)))) :: rest ->
       outcome (dispatchMessage running w) = Returned tt
       /\ List.filter isFrontendAction (events (final (dispatchMessage running w)))
          = List.filter isFrontendAction (events w)
       /\ written (events (final (dispatchMessage running w))) = written (events w).
Proof.
  intros Hparse Hconn Hargs.
  assert (Hrun : run env (start db connections) =
    (Exited EXIT_SUCCESS,
     logged (start db connections)
       (preamble env
        ++ line env QtInfoMsg "There is another instance of albert running." 3
        ++ [SocketClose])
       4)).
  { unfold run, startup, parseCommandline, singletonMechanism.
    rewrite Hparse, Hconn, Hargs. reflexivity. }
  assert (Hwritten : written (events (final (run env (start db connections)))) = []).
  { rewrite Hrun. unfold final, logged, preamble. cbn [snd events start app].
    rewrite !written_app, !line_written. reflexivity. }
  split; [exact Hrun|]. split; [exact Hwritten|]. split.
  - rewrite Hrun. unfold final, logged, preamble. cbn [snd events start app].
    rewrite !existsb_app, !line_no_wait. reflexivity.
  - intros running w rest Hp. rewrite Hwritten in Hp.
    rewrite (dispatchMessage_silent running w rest Hp).
    unfold outcome, final, served. cbn [fst snd events].
    rewrite written_app, List.filter_app. cbn. rewrite !app_nil_r. auto.
Qed.

(** [albert] started a second time. *)
Lemma run_second_instance_witness :
  process_exits second = None
  /\ waitForConnected second = true
  /\ positionalArguments second = []
  /\ outcome (run second (start cachedb [])) = Exited 0
  /\ In (Fprintf stdout
           (cstr ("[12:00:00] [INFO] There is another instance of albert running." ++ LF)))
        (events (final (run second (start cachedb [])))).
Proof.
  do 3 (split; [reflexivity|]).
  destruct (run_second_instance second cachedb [] eq_refl eq_refl eq_refl) as [Hrun _].
  rewrite Hrun. vm_compute. split; [reflexivity|]. find_event.
Defined.

(** C5. An invocation that cannot connect and carries no command token goes
    on as the running instance: it removes a leftover endpoint, then listens
    on [CacheLocation/socket], then connects [newConnection] to
    [dispatchMessage], in this order, and carries on with the rest of the
    start-up. *)
Theorem run_becomes_instance (env : Env) (db : gmap string Table)
    (connections : list QByteArray) :
  process_exits env = None ->
  waitForConnected env = false ->
  positionalArguments env = [] ->
  socketPath env = CacheLocation env ++ "/socket"
  /\ startup env (start db connections) =
     remainingInitialization env
       (logged (start db connections)
          (preamble env
           ++ [ServerRemoveServer (socketPath env)]
           ++ line env QtDebugMsg "Creating IPC server" 3
           ++ [ServerListen (socketPath env)]
           ++ (if listen env then []
               else line env QtWarningMsg
                      (streamed env
                         [Lit "Local server could not be created. IPC will not work! Reason:";
                          QStr (errorString env)]) 4)
           ++ [ServerConnectNewConnection])
          (if listen env then 4 else 5)).
Proof.
  intros Hparse Hconn Hargs.
  split; [reflexivity|].
  unfold startup, parseCommandline, singletonMechanism.
  rewrite Hparse, Hconn, Hargs.
  destruct (listen env); reflexivity.
Qed.

(** [albert] started for the first time. *)
Lemma run_becomes_instance_witness :
  process_exits primary = None
  /\ waitForConnected primary = false
  /\ positionalArguments primary = []
  /\ socketPath primary = "/home/user/.cache/albert/socket"
  /\ outcome (startup primary (start cachedb [])) = Returned tt.
Proof.
  do 3 (split; [reflexivity|]).
  destruct (run_becomes_instance primary cachedb [] eq_refl eq_refl eq_refl)
    as [Hpath Hstartup].
  rewrite Hpath, Hstartup. vm_compute. split; reflexivity.
Defined.

(** ** A bind failure is not fatal *)

Section Oblivious.

Variable env : Env.

Lemma oblivious_ret {A} (a : A) : oblivious (ret a).
Proof. intros w w' H. split; [reflexivity | exact H]. Qed.

Lemma oblivious_exit {A} (status : Z) : oblivious (@exit A status).
Proof. intros w w' H. split; [reflexivity | exact H]. Qed.

Lemma oblivious_crash {A} : oblivious (@crash A).
Proof. intros w w' H. split; [reflexivity | exact H]. Qed.

Lemma oblivious_emit (e : Event) : oblivious (emit e).
Proof. intros w w' H. split; [reflexivity | exact H]. Qed.

Lemma oblivious_bind {A B} (m : M A) (k : A -> M B) :
  oblivious m -> (forall a, oblivious (k a)) -> oblivious (bind m k).
Proof.
  intros Hm Hk w w' H.
  destruct (Hm w w' H) as [Ho Hs].
  unfold bind, outcome, final in *.
  destruct (m w) as [o1 w1], (m w') as [o2 w2]. cbn [fst snd] in *.
  subst o2. destruct o1; [apply Hk; exact Hs | split; auto | split; auto].
Qed.

Lemma oblivious_when (b : bool) (m : M unit) : oblivious m -> oblivious (when b m).
Proof. destruct b; [auto | intros _; apply oblivious_ret]. Qed.

Lemma oblivious_forEach {A} (l : list A) (body : A -> M unit) :
  (forall x, oblivious (body x)) -> oblivious (forEach l body).
Proof.
  intros Hbody. induction l as [|x l IH]; cbn [forEach].
  - apply oblivious_ret.
  - apply oblivious_bind; [apply Hbody | intros _; exact IH].
Qed.

Lemma oblivious_myMessageOutput (type : QtMsgType) (context : QMessageLogContext)
    (message : QString) :
  oblivious (myMessageOutput env type context message).
Proof. intros w w' H. destruct type; split; first [reflexivity | exact H]. Qed.

Lemma oblivious_qFatal {A} (message : QString) : oblivious (@qFatal env A message).
Proof.
  apply oblivious_bind; [apply oblivious_myMessageOutput | intros _; apply oblivious_crash].
Qed.

Lemma oblivious_transaction : oblivious (transaction env).
Proof.
  intros w w' (Ht & Hx & Hp). unfold transaction, outcome, final, sameStore.
  cbn [fst snd tables txn pending]. rewrite Ht, Hx. auto.
Qed.

Lemma oblivious_commit : oblivious (commit env).
Proof.
  intros w w' (Ht & Hx & Hp). unfold commit, outcome, final, sameStore.
  cbn [fst snd tables txn pending]. rewrite Hx. auto.
Qed.

Lemma oblivious_exec (s : Stmt) : oblivious (exec env s).
Proof.
  intros w w' (Ht & Hx & Hp). unfold exec, outcome, final, sameStore.
  rewrite Ht.
  destruct (sql_fault env s); [cbn; auto|].
  destruct (sqlite_step (now env) s (tables w')); cbn; auto.
Qed.

End Oblivious.

Create HintDb oblivious.

#[local] Hint Resolve oblivious_ret oblivious_exit oblivious_crash oblivious_emit
  oblivious_when oblivious_forEach oblivious_myMessageOutput oblivious_qFatal
  oblivious_transaction oblivious_commit oblivious_exec : oblivious.

Ltac oblivious_step :=
  match goal with
  | |- oblivious (bind _ _) => apply oblivious_bind; [|intros ?]
  | |- oblivious (if ?b then _ else _) => destruct b
  | |- oblivious (match ?x with _ => _ end) => destruct x
  | |- oblivious (when _ _) => apply oblivious_when
  | |- oblivious (forEach _ _) => apply oblivious_forEach; intros ?
  | |- oblivious (let _ := _ in _) => cbv zeta
  | |- _ => solve [auto with oblivious]
  end.

Lemma remainingInitialization_oblivious (env : Env) :
  oblivious (remainingInitialization env).
Proof.
  unfold remainingInitialization, initializePaths, detectFirstRun, initializeDatabase,
    initializeComponents, buildTrayIcon, standaloneNote, setupHotkey, misc, signaling,
    qDebug, qInfo, qWarning, qCritical.
  repeat oblivious_step.
Qed.

Lemma remainingInitialization_bindSucceeds (env : Env) :
  remainingInitialization (bindSucceeds env) = remainingInitialization env.
Proof.
  cbv [remainingInitialization initializePaths detectFirstRun initializeDatabase
       initializeComponents buildTrayIcon standaloneNote setupHotkey misc signaling
       qDebug qInfo qWarning qCritical qFatal myMessageOutput timeString streamed render
       exec transaction commit defaultPluginDirs bindSucceeds
       currentTime context quoted quotedBytes toLocal8Bit fromLocal8Bit
       CacheLocation DataLocation AppConfigLocation ConfigLocation homePath iconPath
       process_exits positionalArguments value_hotkey value_plugin_dirs
       waitForConnected serverReply listen errorString mkpath exists_oldcfg
       exists_newcfg exists_firstrun_cache exists_firstrun_data
       exists_last_used_version open_last_used_version_ro majorVersionChanged
       fileErrorString firstRunAnswerYes open_last_used_version_wo isDir
       canonicalFilePath exists_running open_running standsalone_note_shown
       settings_hotkey registerHotkey hotkeyAnswerYes db_isValid db_hasTransactions
       db_open db_transaction db_commit now sql_fault lastErrorText exec_retval].
  reflexivity.
Qed.

(** C9. When [listen] fails the failure goes to the log as a warning and the
    start-up carries on with everything that follows the gateway section; it
    ends exactly as it would have ended had the bind succeeded, with the same
    store, so the bind failure is never what stops the process. *)
Theorem startup_survives_bind_failure (env : Env) (db : gmap string Table)
    (connections : list QByteArray) :
  process_exits env = None ->
  waitForConnected env = false ->
  length (positionalArguments env) <> 1%nat ->
  listen env = false ->
  startup env (start db connections) =
    remainingInitialization env
      (logged (start db connections)
         (preamble env
          ++ [ServerRemoveServer (socketPath env)]
          ++ line env QtDebugMsg "Creating IPC server" 3
          ++ [ServerListen (socketPath env)]
          ++ line env QtWarningMsg
               ("Local server could not be created. IPC will not work! Reason: "
                ++ quoted env (errorString env)) 4
          ++ [ServerConnectNewConnection])
         5)
  /\ outcome (startup env (start db connections))
     = outcome (startup (bindSucceeds env) (start db connections))
  /\ sameStore (final (startup env (start db connections)))
               (final (startup (bindSucceeds env) (start db connections))).
Proof.
  intros Hparse Hconn Hargs Hlisten.
  assert (Hcount : (Z.of_nat (length (positionalArguments env)) =? 1) = false).
  { apply Z.eqb_neq. lia. }
  assert (Hfail : startup env (start db connections) =
    remainingInitialization env
      (logged (start db connections)
         (preamble env
          ++ [ServerRemoveServer (socketPath env)]
          ++ line env QtDebugMsg "Creating IPC server" 3
          ++ [ServerListen (socketPath env)]
          ++ line env QtWarningMsg
               ("Local server could not be created. IPC will not work! Reason: "
                ++ quoted env (errorString env)) 4
          ++ [ServerConnectNewConnection])
         5)).
  { unfold startup, parseCommandline, singletonMechanism.
    rewrite Hparse, Hconn, Hcount, Hlisten. reflexivity. }
  assert (Hok : startup (bindSucceeds env) (start db connections) =
    remainingInitialization (bindSucceeds env)
      (logged (start db connections)
         (preamble (bindSucceeds env)
          ++ [ServerRemoveServer (socketPath (bindSucceeds env))]
          ++ line (bindSucceeds env) QtDebugMsg "Creating IPC server" 3
          ++ [ServerListen (socketPath (bindSucceeds env)); ServerConnectNewConnection])
         4)).
  { unfold startup, parseCommandline, singletonMechanism.
    change (process_exits (bindSucceeds env)) with (process_exits env).
    change (waitForConnected (bindSucceeds env)) with (waitForConnected env).
    change (positionalArguments (bindSucceeds env)) with (positionalArguments env).
    change (listen (bindSucceeds env)) with true.
    rewrite Hparse, Hconn, Hcount. reflexivity. }
  split; [exact Hfail|].
  rewrite Hfail, Hok, remainingInitialization_bindSucceeds.
  apply remainingInitialization_oblivious.
  repeat split.
Qed.

(** The cache directory does not admit a socket: start-up still completes. *)
Lemma startup_survives_bind_failure_witness :
  process_exits unbound = None
  /\ waitForConnected unbound = false
  /\ length (positionalArguments unbound) <> 1%nat
  /\ listen unbound = false
  /\ outcome (startup unbound (start cachedb [])) = Returned tt
  /\ In (Fprintf stderr
           (cstr ("[12:00:00] " ++ ESC ++ "[33;1m[WARN]" ++ ESC ++ "[0;1m "
                  ++ "Local server could not be created. IPC will not work! Reason: "
                  ++ DQUOTE ++ "QLocalServer::listen: Permission denied" ++ DQUOTE
                  ++ "  --  [int Core::AlbertApp::run(int, char**)]" ++ ESC ++ "[0m" ++ LF)))
        (events (final (startup unbound (start cachedb [])))).
Proof.
  assert (Hargs : length (positionalArguments unbound) <> 1%nat) by (cbn; discriminate).
  split; [reflexivity|]. split; [reflexivity|]. split; [exact Hargs|].
  split; [reflexivity|].
  destruct (startup_survives_bind_failure unbound cachedb [] eq_refl eq_refl Hargs eq_refl)
    as (Hstartup & Hsame & _).
  split.
  - rewrite Hsame. vm_compute. reflexivity.
  - rewrite Hstartup. vm_compute. find_event.
Defined.

(** ** The usage store at start-up *)

Lemma neverReturns_bind_l {A B} (m : M A) (k : A -> M B) :
  neverReturns m -> neverReturns (bind m k).
Proof.
  intros Hm w b. specialize (Hm w). unfold bind, outcome in *.
  destruct (m w) as [[a| |] w']; cbn [fst] in *; [exfalso; exact (Hm a eq_refl)|..];
    discriminate.
Qed.

Lemma neverReturns_bind_r {A B} (m : M A) (k : A -> M B) :
  (forall a, neverReturns (k a)) -> neverReturns (bind m k).
Proof.
  intros Hk w b. unfold bind, outcome.
  destruct (m w) as [[a| |] w']; cbn [fst]; [apply (Hk a w' b)|..]; discriminate.
Qed.

Ltac world_eq :=
  cbv [logged line final outcome bind emit ret when exit crash
       qDebug qInfo qWarning qCritical qFatal myMessageOutput timeString streamed
       transaction commit];
  cbn [events ticks tables txn pending fst snd app negb map render String.concat Nat.add];
  rewrite <- ?app_assoc; cbn [app].

(** C6. When the SQLite driver is not available, or has no transactions, or
    the database file cannot be opened, the database section prints a fatal
    message and ends the process with status 1, leaving the store as it was;
    the start-up then never completes and [run] never returns, so the event
    loop is not entered without a store. *)
Theorem store_failure_is_fatal (env : Env) :
  db_isValid env = false \/ db_hasTransactions env = false \/ db_open env = false ->
  (forall w,
     initializeDatabase env w =
       (Exited 1,
        logged w
          (line env QtDebugMsg "Initializing database" (ticks w)
           ++ [DbAddDatabase "QSQLITE"]
           ++ (if negb (db_isValid env) then
                 line env QtFatalMsg "No sqlite available" (S (ticks w))
               else if negb (db_hasTransactions env) then
                 line env QtFatalMsg "QSqlDriver::Transactions not available." (S (ticks w))
               else
                 [DbSetDatabaseName (filePath (CacheLocation env) "core.db"); DbOpen]
                 ++ line env QtFatalMsg "Unable to establish a database connection."
                      (S (ticks w))))
          2))
  /\ (forall w, outcome (startup env w) <> Returned tt)
  /\ (forall w retval, outcome (run env w) <> Returned retval).
Proof.
  intros Hbroken.
  assert (Hdb : forall w,
     initializeDatabase env w =
       (Exited 1,
        logged w
          (line env QtDebugMsg "Initializing database" (ticks w)
           ++ [DbAddDatabase "QSQLITE"]
           ++ (if negb (db_isValid env) then
                 line env QtFatalMsg "No sqlite available" (S (ticks w))
               else if negb (db_hasTransactions env) then
                 line env QtFatalMsg "QSqlDriver::Transactions not available." (S (ticks w))
               else
                 [DbSetDatabaseName (filePath (CacheLocation env) "core.db"); DbOpen]
                 ++ line env QtFatalMsg "Unable to establish a database connection."
                      (S (ticks w))))
          2)).
  { intros w. unfold initializeDatabase.
    destruct (db_isValid env) eqn:Hvalid; [|world_eq; reflexivity].
    destruct (db_hasTransactions env) eqn:Htrans; [|world_eq; reflexivity].
    destruct (db_open env) eqn:Hopen; [|world_eq; reflexivity].
    destruct Hbroken as [H|[H|H]]; discriminate. }
  assert (Hnever : neverReturns (initializeDatabase env)).
  { intros w a. rewrite Hdb. discriminate. }
  assert (Hstartup : neverReturns (startup env)).
  { unfold startup, remainingInitialization.
    do 5 (apply neverReturns_bind_r; intros ?).
    apply neverReturns_bind_l. exact Hnever. }
  split; [exact Hdb|]. split.
  - intros w. apply Hstartup.
  - intros w retval. unfold run. apply neverReturns_bind_l. exact Hstartup.
Qed.

(** Qt without the SQLite driver. *)
Lemma store_failure_is_fatal_witness :
  (db_isValid nosqlite = false \/ db_hasTransactions nosqlite = false
   \/ db_open nosqlite = false)
  /\ outcome (initializeDatabase nosqlite (start cachedb [])) = Exited 1
  /\ tables (final (initializeDatabase nosqlite (start cachedb []))) = cachedb
  /\ outcome (run nosqlite (start cachedb [])) <> Returned 0.
Proof.
  assert (Hbroken : db_isValid nosqlite = false \/ db_hasTransactions nosqlite = false
                    \/ db_open nosqlite = false) by (left; reflexivity).
  split; [exact Hbroken|].
  destruct (store_failure_is_fatal nosqlite Hbroken) as (Hdb & _ & Hrun).
  rewrite Hdb. repeat split. apply Hrun.
Defined.

(** *** The statements, one at a time *)

Lemma exec_eq (env : Env) (s : Stmt) (w : World) :
  exec env s w =
    (Returned (runs env s (tables w)),
     {| events := (events w ++ [DbExec s])%list; ticks := ticks w;
        tables := attempt env s (tables w); txn := txn w; pending := pending w |}).
Proof.
  unfold exec, runs, attempt.
  destruct (sql_fault env s); [reflexivity|].
  destruct (sqlite_step (now env) s (tables w)); reflexivity.
Qed.

Lemma olderThan_datetime (now_ms days ts : Z) :
  olderThan now_ms days (VDateTime ts) = (days * msPerDay <? now_ms - ts).
Proof.
  unfold olderThan, julianday.
  destruct (Z.ltb_spec (days * msPerDay) (now_ms - ts)) as [H|H].
  - apply negb_true_iff. apply not_true_iff_false. rewrite Qle_bool_iff.
    unfold Qle, julianday_now, unixEpochJulianDay, msPerDay in *. cbn. lia.
  - apply negb_false_iff. rewrite Qle_bool_iff.
    unfold Qle, julianday_now, unixEpochJulianDay, msPerDay in *. cbn. lia.
Qed.

Lemma kept_iff (now_ms days : Z) (l : list (gmap string Value)) (r : gmap string Value)
    (ts : Z) :
  cell r "timestamp" = VDateTime ts ->
  In r (List.filter (fun r => negb (olderThan now_ms days (cell r "timestamp"))) l)
  <-> In r l /\ now_ms - ts <= days * msPerDay.
Proof.
  intros Hts. rewrite filter_In, Hts, olderThan_datetime, negb_true_iff, Z.ltb_ge.
  reflexivity.
Qed.

Lemma hasColumn_names (t : Table) (column : string) :
  hasColumn t column = existsb (String.eqb column) (columnNames t).
Proof. reflexivity. Qed.

Lemma schema_lookup (db : gmap string Table) (name : string) (t : Table) :
  db !! name = Some t -> schema db !! name = Some (columnNames t).
Proof. intros H. unfold schema. rewrite lookup_fmap, H. reflexivity. Qed.

Section Statements.

Variable env : Env.

(** CREATE TABLE IF NOT EXISTS *)

Lemma runs_create (name : string) (cols : list Column) (db : gmap string Table) :
  sql_fault env (CreateTableIfNotExists name cols) = false ->
  runs env (CreateTableIfNotExists name cols) db = true.
Proof.
  intros H. unfold runs. rewrite H. cbn [sqlite_step].
  destruct (db !! name); reflexivity.
Qed.

Lemma attempt_create_same (name : string) (cols : list Column) (db : gmap string Table) :
  sql_fault env (CreateTableIfNotExists name cols) = false ->
  attempt env (CreateTableIfNotExists name cols) db !! name =
    Some (match db !! name with
          | Some t => t
          | None => {| columns := cols; rows := [] |}
          end).
Proof.
  intros Hf. unfold attempt. rewrite Hf. cbn [sqlite_step].
  destruct (db !! name) eqn:E; [exact E | apply lookup_insert_eq].
Qed.

Lemma attempt_create_other (name other : string) (cols : list Column)
    (db : gmap string Table) :
  other <> name ->
  attempt env (CreateTableIfNotExists name cols) db !! other = db !! other.
Proof.
  intros Hne. unfold attempt.
  destruct (sql_fault env _); [reflexivity|]. cbn [sqlite_step].
  destruct (db !! name); [reflexivity|]. apply lookup_insert_ne. congruence.
Qed.

Lemma attempt_create_present (name : string) (cols : list Column) (db : gmap string Table) :
  is_Some (db !! name) ->
  attempt env (CreateTableIfNotExists name cols) db = db.
Proof.
  intros [t Ht]. unfold attempt.
  destruct (sql_fault env _); [reflexivity|]. cbn [sqlite_step]. rewrite Ht. reflexivity.
Qed.

Lemma rowsOf_create (name any : string) (cols : list Column) (db : gmap string Table) :
  rowsOf (attempt env (CreateTableIfNotExists name cols) db) any = rowsOf db any.
Proof.
  unfold attempt.
  destruct (sql_fault env _); [reflexivity|]. cbn [sqlite_step].
  destruct (db !! name) eqn:E; [reflexivity|].
  unfold rowsOf. destruct (decide (any = name)) as [->|Hne].
  - rewrite lookup_insert_eq, E. reflexivity.
  - rewrite lookup_insert_ne by congruence. reflexivity.
Qed.

(** DELETE FROM table WHERE julianday('now')-julianday(column)>days *)

Lemma attempt_delete_other (table column other : string) (days : Z)
    (db : gmap string Table) :
  other <> table ->
  attempt env (DeleteOlderThan table column days) db !! other = db !! other.
Proof.
  intros Hne. unfold attempt.
  destruct (sql_fault env _); [reflexivity|]. cbn [sqlite_step].
  destruct (db !! table); [|reflexivity].
  destruct (hasColumn _ _); [|reflexivity].
  apply lookup_insert_ne. congruence.
Qed.

Lemma rowsOf_delete_other (table column other : string) (days : Z)
    (db : gmap string Table) :
  other <> table ->
  rowsOf (attempt env (DeleteOlderThan table column days) db) other = rowsOf db other.
Proof. intros Hne. unfold rowsOf. rewrite attempt_delete_other by exact Hne. reflexivity. Qed.

Lemma rowsOf_delete (table column : string) (days : Z) (db : gmap string Table) :
  rowsOf (attempt env (DeleteOlderThan table column days) db) table =
    if runs env (DeleteOlderThan table column days) db then
      List.filter (fun r => negb (olderThan (now env) days (cell r column))) (rowsOf db table)
    else rowsOf db table.
Proof.
  unfold attempt, runs.
  destruct (sql_fault env _); [reflexivity|]. cbn [sqlite_step].
  unfold rowsOf.
  destruct (db !! table) as [t|] eqn:E; [|rewrite E; reflexivity].
  destruct (hasColumn t column); [|rewrite E; reflexivity].
  rewrite lookup_insert_eq. reflexivity.
Qed.

Lemma runs_delete (table column : string) (days : Z) (db : gmap string Table) (t : Table) :
  sql_fault env (DeleteOlderThan table column days) = false ->
  db !! table = Some t ->
  hasColumn t column = true ->
  runs env (DeleteOlderThan table column days) db = true.
Proof.
  intros Hf Ht Hc. unfold runs. rewrite Hf. cbn [sqlite_step]. rewrite Ht, Hc. reflexivity.
Qed.

Lemma schema_delete (table column : string) (days : Z) (db : gmap string Table) :
  schema (attempt env (DeleteOlderThan table column days) db) = schema db.
Proof.
  unfold attempt.
  destruct (sql_fault env _); [reflexivity|]. cbn [sqlite_step].
  destruct (db !! table) as [t|] eqn:E; [|reflexivity].
  destruct (hasColumn t column); [|reflexivity].
  unfold schema. rewrite fmap_insert. apply insert_id.
  rewrite lookup_fmap, E. reflexivity.
Qed.

(** *** The four statements together *)

Lemma created_usages (db : gmap string Table) :
  sql_fault env create_usages = false ->
  exists t, created env db !! "usages" = Some t
    /\ rows t = rowsOf db "usages"
    /\ columnNames t = match db !! "usages" with
                       | Some t0 => columnNames t0
                       | None => usagesColumns
                       end.
Proof.
  intros Hf. unfold created, create_runtimes, create_usages in *.
  rewrite attempt_create_other by discriminate.
  rewrite (attempt_create_same _ _ _ Hf).
  unfold rowsOf. destruct (db !! "usages") as [t|]; eexists; repeat split; reflexivity.
Qed.

Lemma created_runtimes (db : gmap string Table) :
  sql_fault env create_runtimes = false ->
  exists t, created env db !! "runtimes" = Some t
    /\ rows t = rowsOf db "runtimes"
    /\ columnNames t = match db !! "runtimes" with
                       | Some t0 => columnNames t0
                       | None => runtimesColumns
                       end.
Proof.
  intros Hf. unfold created, create_runtimes, create_usages in *.
  rewrite (attempt_create_same _ _ _ Hf).
  rewrite attempt_create_other by discriminate.
  unfold rowsOf. destruct (db !! "runtimes") as [t|]; eexists; repeat split; reflexivity.
Qed.

Lemma created_present (db : gmap string Table) :
  is_Some (db !! "usages") -> is_Some (db !! "runtimes") -> created env db = db.
Proof.
  intros Hu Hr. unfold created, create_runtimes, create_usages.
  rewrite (attempt_create_present "usages" _ db Hu).
  apply attempt_create_present. exact Hr.
Qed.

Lemma schema_created_kept (db : gmap string Table) (name : string) :
  is_Some (db !! name) \/ (name <> "usages" /\ name <> "runtimes") ->
  schema (created env db) !! name = schema db !! name.
Proof.
  intros H. unfold schema. rewrite !lookup_fmap. f_equal.
  unfold created, create_runtimes, create_usages.
  destruct (decide (name = "runtimes")) as [->|Hr].
  - destruct H as [Hs|[_ Hne]]; [|congruence].
    rewrite attempt_create_present; [apply attempt_create_other; discriminate|].
    rewrite attempt_create_other by discriminate. exact Hs.
  - rewrite attempt_create_other by exact Hr.
    destruct (decide (name = "usages")) as [->|Hu].
    + destruct H as [Hs|[Hne _]]; [|congruence].
      rewrite attempt_create_present by exact Hs. reflexivity.
    + apply attempt_create_other. exact Hu.
Qed.

Lemma schema_opened (db : gmap string Table) :
  schema (opened env db) = schema (created env db).
Proof. unfold opened, cleanup_runtimes, cleanup_usages. rewrite !schema_delete. reflexivity. Qed.

Lemma opened_has_tables (db : gmap string Table) :
  sql_fault env create_usages = false -> sql_fault env create_runtimes = false ->
  is_Some (opened env db !! "usages") /\ is_Some (opened env db !! "runtimes").
Proof.
  intros Hcu Hcr.
  destruct (created_usages db Hcu) as (tu & Htu & _).
  destruct (created_runtimes db Hcr) as (tr & Htr & _).
  split; apply (fmap_is_Some columnNames); rewrite <- lookup_fmap;
    fold (schema (opened env db)); rewrite schema_opened;
    erewrite schema_lookup by eassumption; eauto.
Qed.

Lemma rowsOf_opened_usages (db : gmap string Table) :
  rowsOf (opened env db) "usages" =
    if runs env cleanup_usages (created env db) then
      List.filter (fun r => negb (olderThan (now env) 90 (cell r "timestamp")))
                  (rowsOf db "usages")
    else rowsOf db "usages".
Proof.
  unfold opened, cleanup_runtimes, cleanup_usages.
  rewrite rowsOf_delete_other by discriminate.
  rewrite rowsOf_delete. unfold created, create_runtimes, create_usages.
  rewrite !rowsOf_create. reflexivity.
Qed.

Lemma rowsOf_opened_runtimes (db : gmap string Table) :
  rowsOf (opened env db) "runtimes" =
    if runs env cleanup_runtimes (attempt env cleanup_usages (created env db)) then
      List.filter (fun r => negb (olderThan (now env) 7 (cell r "timestamp")))
                  (rowsOf db "runtimes")
    else rowsOf db "runtimes".
Proof.
  unfold opened, cleanup_runtimes, cleanup_usages.
  rewrite rowsOf_delete.
  rewrite rowsOf_delete_other by discriminate.
  unfold created, create_runtimes, create_usages. rewrite !rowsOf_create. reflexivity.
Qed.

Lemma runs_cleanup_usages (db : gmap string Table) :
  sql_fault env create_usages = false ->
  sql_fault env cleanup_usages = false ->
  (forall t, db !! "usages" = Some t -> hasColumn t "timestamp" = true) ->
  runs env cleanup_usages (created env db) = true.
Proof.
  intros Hcu Hf Hcol.
  destruct (created_usages db Hcu) as (t & Ht & _ & Hnames).
  apply (runs_delete _ _ _ _ t Hf Ht).
  rewrite hasColumn_names, Hnames.
  destruct (db !! "usages") as [t0|] eqn:E; [|reflexivity].
  rewrite <- hasColumn_names. apply Hcol. reflexivity.
Qed.

Lemma runs_cleanup_runtimes (db : gmap string Table) :
  sql_fault env create_runtimes = false ->
  sql_fault env cleanup_runtimes = false ->
  (forall t, db !! "runtimes" = Some t -> hasColumn t "timestamp" = true) ->
  runs env cleanup_runtimes (attempt env cleanup_usages (created env db)) = true.
Proof.
  intros Hcr Hf Hcol.
  destruct (created_runtimes db Hcr) as (t & Ht & _ & Hnames).
  apply (runs_delete _ _ _ _ t Hf).
  - unfold cleanup_usages. rewrite attempt_delete_other by discriminate. exact Ht.
  - rewrite hasColumn_names, Hnames.
    destruct (db !! "runtimes") as [t0|] eqn:E; [|reflexivity].
    rewrite <- hasColumn_names. apply Hcol. reflexivity.
Qed.

(** The database section, when the driver is there and the tables can be
    created: it never stops the process. *)
Lemma initializeDatabase_opens (w : World) :
  db_isValid env = true -> db_hasTransactions env = true -> db_open env = true ->
  sql_fault env create_usages = false -> sql_fault env create_runtimes = false ->
  let t2 := created env (tables w) in
  let ok_u := runs env cleanup_usages t2 in
  let t3 := attempt env cleanup_usages t2 in
  let ok_r := runs env cleanup_runtimes t3 in
  initializeDatabase env w =
    (Returned tt,
     {| events :=
          (events w
           ++ line env QtDebugMsg "Initializing database" (ticks w)
           ++ [DbAddDatabase "QSQLITE";
               DbSetDatabaseName (filePath (CacheLocation env) "core.db");
               DbOpen; DbTransaction; DbExec create_usages; DbExec create_runtimes;
               DbExec cleanup_usages]
           ++ (if ok_u then []
               else line env QtWarningMsg "Unable to cleanup usages table." (S (ticks w)))
           ++ [DbExec cleanup_runtimes]
           ++ (if ok_r then []
               else line env QtWarningMsg "Unable to cleanup runtimes table."
                      (if ok_u then S (ticks w) else S (S (ticks w))))
           ++ [DbCommit])%list;
        ticks := ((if ok_r then 0 else 1) + ((if ok_u then 0 else 1) + S (ticks w)))%nat;
        tables := attempt env cleanup_runtimes t3;
        txn := if db_commit env then None
               else match txn w with
                    | None => if db_transaction env then Some (tables w) else None
                    | Some snapshot => Some snapshot
                    end;
        pending := pending w |}).
Proof.
  intros Hvalid Htrans Hopen Hcu Hcr t2 ok_u t3 ok_r.
  unfold initializeDatabase. rewrite Hvalid, Htrans, Hopen.
  world_eq.
  rewrite exec_eq. cbn [events ticks tables txn pending].
  rewrite (runs_create _ _ _ Hcu). cbn [negb].
  rewrite exec_eq. cbn [events ticks tables txn pending].
  rewrite (runs_create _ _ _ Hcr). cbn [negb].
  rewrite exec_eq. cbn [events ticks tables txn pending].
  fold (created env (tables w)). fold t2. fold ok_u. fold t3.
  destruct ok_u; cbn [negb]; rewrite exec_eq; cbn [events ticks tables txn pending];
    fold ok_r; destruct ok_r;
    cbn [negb events ticks tables txn pending app Nat.add];
    rewrite <- ?app_assoc; cbn [app]; reflexivity.
Qed.

Lemma initializeDatabase_tables (w : World) :
  db_isValid env = true -> db_hasTransactions env = true -> db_open env = true ->
  sql_fault env create_usages = false -> sql_fault env create_runtimes = false ->
  outcome (initializeDatabase env w) = Returned tt
  /\ tables (final (initializeDatabase env w)) = opened env (tables w).
Proof.
  intros Hv Ht Ho Hcu Hcr.
  rewrite (initializeDatabase_opens w Hv Ht Ho Hcu Hcr). split; reflexivity.
Qed.

End Statements.

(** C7. When the store is opened, the clean-up deletes the rows of [usages]
    whose time stamp is more than 90 days before now and the rows of
    [runtimes] whose time stamp is more than 7 days before now, and no row
    that is younger; when a clean-up statement fails the rows stay, a warning
    is logged, and the database section still returns. *)
Theorem prune_at_store_open (env : Env) (w : World) :
  db_isValid env = true -> db_hasTransactions env = true -> db_open env = true ->
  sql_fault env create_usages = false -> sql_fault env create_runtimes = false ->
  outcome (initializeDatabase env w) = Returned tt
  /\ (sql_fault env cleanup_usages = false ->
      (forall t, tables w !! "usages" = Some t -> hasColumn t "timestamp" = true) ->
      forall r ts, cell r "timestamp" = VDateTime ts ->
        In r (rowsOf (tables (final (initializeDatabase env w))) "usages")
        <-> In r (rowsOf (tables w) "usages") /\ now env - ts <= 90 * msPerDay)
  /\ (sql_fault env cleanup_runtimes = false ->
      (forall t, tables w !! "runtimes" = Some t -> hasColumn t "timestamp" = true) ->
      forall r ts, cell r "timestamp" = VDateTime ts ->
        In r (rowsOf (tables (final (initializeDatabase env w))) "runtimes")
        <-> In r (rowsOf (tables w) "runtimes") /\ now env - ts <= 7 * msPerDay)
  /\ (runs env cleanup_usages (created env (tables w)) = false ->
      rowsOf (tables (final (initializeDatabase env w))) "usages" = rowsOf (tables w) "usages"
      /\ incl (line env QtWarningMsg "Unable to cleanup usages table." (S (ticks w)))
              (events (final (initializeDatabase env w))))
  /\ (runs env cleanup_runtimes (attempt env cleanup_usages (created env (tables w))) = false ->
      rowsOf (tables (final (initializeDatabase env w))) "runtimes"
        = rowsOf (tables w) "runtimes"
      /\ exists tick,
           incl (line env QtWarningMsg "Unable to cleanup runtimes table." tick)
                (events (final (initializeDatabase env w)))).
Proof.
  intros Hv Ht Ho Hcu Hcr.
  destruct (initializeDatabase_tables env w Hv Ht Ho Hcu Hcr) as [Hout Htab].
  pose proof (initializeDatabase_opens env w Hv Ht Ho Hcu Hcr) as Hw. cbv zeta in Hw.
  split; [exact Hout|].
  split; [|split; [|split]].
  - intros Hf Hcol r ts Hts.
    rewrite Htab, rowsOf_opened_usages, (runs_cleanup_usages env _ Hcu Hf Hcol).
    apply kept_iff. exact Hts.
  - intros Hf Hcol r ts Hts.
    rewrite Htab, rowsOf_opened_runtimes, (runs_cleanup_runtimes env _ Hcr Hf Hcol).
    apply kept_iff. exact Hts.
  - intros Hfail. split.
    + rewrite Htab, rowsOf_opened_usages, Hfail. reflexivity.
    + rewrite Hw, Hfail. unfold final. cbn [snd events].
      intros e He. rewrite !in_app_iff. auto 6.
  - intros Hfail. split.
    + rewrite Htab, rowsOf_opened_runtimes, Hfail. reflexivity.
    + rewrite Hw, Hfail. unfold final. cbn [snd events].
      eexists. intros e He. rewrite !in_app_iff. right. right. right. right. right. left.
      exact He.
Qed.

(** Records of 91 and 89 days, samples of 8 and 6 days. *)
Lemma prune_at_store_open_witness :
  db_isValid primary = true /\ db_hasTransactions primary = true /\ db_open primary = true
  /\ sql_fault primary create_usages = false /\ sql_fault primary create_runtimes = false
  /\ ~ In (usage "fire" "applications.firefox" (days 91))
          (rowsOf (tables (final (initializeDatabase primary (start cachedb [])))) "usages")
  /\ In (usage "term" "applications.xterm" (days 89))
        (rowsOf (tables (final (initializeDatabase primary (start cachedb [])))) "usages")
  /\ ~ In (sample "applications" 1200 (days 8))
          (rowsOf (tables (final (initializeDatabase primary (start cachedb [])))) "runtimes")
  /\ In (sample "files" 35000 (days 6))
        (rowsOf (tables (final (initializeDatabase primary (start cachedb [])))) "runtimes").
Proof.
  do 5 (split; [reflexivity|]).
  destruct (prune_at_store_open primary (start cachedb [])
              eq_refl eq_refl eq_refl eq_refl eq_refl) as (_ & Husages & Hruntimes & _).
  assert (Hu : forall t, tables (start cachedb []) !! "usages" = Some t ->
                         hasColumn t "timestamp" = true).
  { intros t Ht. change (Some usagesTable = Some t) in Ht.
    injection Ht as <-. reflexivity. }
  assert (Hr : forall t, tables (start cachedb []) !! "runtimes" = Some t ->
                         hasColumn t "timestamp" = true).
  { intros t Ht. change (Some runtimesTable = Some t) in Ht.
    injection Ht as <-. reflexivity. }
  specialize (Husages eq_refl Hu). specialize (Hruntimes eq_refl Hr).
  assert (Hfire : cell (usage "fire" "applications.firefox" (days 91)) "timestamp"
                  = VDateTime (1700000000000 - days 91)) by reflexivity.
  assert (Hterm : cell (usage "term" "applications.xterm" (days 89)) "timestamp"
                  = VDateTime (1700000000000 - days 89)) by reflexivity.
  assert (Hslow : cell (sample "applications" 1200 (days 8)) "timestamp"
                  = VDateTime (1700000000000 - days 8)) by reflexivity.
  assert (Hfast : cell (sample "files" 35000 (days 6)) "timestamp"
                  = VDateTime (1700000000000 - days 6)) by reflexivity.
  split; [|split; [|split]].
  - intros Hin.
    destruct (proj1 (Husages (usage "fire" "applications.firefox" (days 91)) _ Hfire) Hin)
      as [_ Hle].
    vm_compute in Hle. apply Hle. reflexivity.
  - refine (proj2 (Husages (usage "term" "applications.xterm" (days 89)) _ Hterm) _).
    split; [right; left; reflexivity | vm_compute; discriminate].
  - intros Hin.
    destruct (proj1 (Hruntimes (sample "applications" 1200 (days 8)) _ Hslow) Hin)
      as [_ Hle].
    vm_compute in Hle. apply Hle. reflexivity.
  - refine (proj2 (Hruntimes (sample "files" 35000 (days 6)) _ Hfast) _).
    split; [right; left; reflexivity | vm_compute; discriminate].
Defined.

(** C8. Creating the schema is idempotent.  The database section creates
    [usages(input, itemId, timestamp)] and [runtimes(extensionId, runtime,
    timestamp)] where they are missing; a table that is already there keeps
    its columns and no other table appears; on a store that has both tables
    the schema is unchanged and the section returns; on an empty store the
    schema is exactly these two tables; and running the section again, on
    the store it has left, returns and changes no schema. *)
Theorem schema_creation_idempotent (env : Env) (w : World) :
  db_isValid env = true -> db_hasTransactions env = true -> db_open env = true ->
  sql_fault env create_usages = false -> sql_fault env create_runtimes = false ->
  outcome (initializeDatabase env w) = Returned tt
  /\ (is_Some (tables w !! "usages") -> is_Some (tables w !! "runtimes") ->
      schema (tables (final (initializeDatabase env w))) = schema (tables w))
  /\ (forall name,
        is_Some (tables w !! name) \/ (name <> "usages" /\ name <> "runtimes") ->
        schema (tables (final (initializeDatabase env w))) !! name = schema (tables w) !! name)
  /\ (tables w !! "usages" = None ->
      schema (tables (final (initializeDatabase env w))) !! "usages" = Some usagesColumns)
  /\ (tables w !! "runtimes" = None ->
      schema (tables (final (initializeDatabase env w))) !! "runtimes" = Some runtimesColumns)
  /\ (tables w = ∅ ->
      schema (tables (final (initializeDatabase env w)))
      = {[ "usages" := usagesColumns; "runtimes" := runtimesColumns ]})
  /\ (forall again : Env,
        db_isValid again = true -> db_hasTransactions again = true -> db_open again = true ->
        sql_fault again create_usages = false -> sql_fault again create_runtimes = false ->
        outcome (initializeDatabase again (final (initializeDatabase env w))) = Returned tt
        /\ schema (tables (final (initializeDatabase again (final (initializeDatabase env w)))))
           = schema (tables (final (initializeDatabase env w)))).
Proof.
  intros Hv Ht Ho Hcu Hcr.
  destruct (initializeDatabase_tables env w Hv Ht Ho Hcu Hcr) as [Hout Htab].
  destruct (created_usages env (tables w) Hcu) as (tu & Htu & _ & Hnu).
  destruct (created_runtimes env (tables w) Hcr) as (tr & Htr & _ & Hnr).
  split; [exact Hout|].
  split; [|split; [|split; [|split; [|split]]]].
  - intros Hu Hr. rewrite Htab, schema_opened, (created_present env _ Hu Hr). reflexivity.
  - intros name Hname. rewrite Htab, schema_opened. apply schema_created_kept. exact Hname.
  - intros Hnone. rewrite Htab, schema_opened, (schema_lookup _ _ _ Htu), Hnu, Hnone.
    reflexivity.
  - intros Hnone. rewrite Htab, schema_opened, (schema_lookup _ _ _ Htr), Hnr, Hnone.
    reflexivity.
  - intros Hempty. rewrite Htab, schema_opened, Hempty. unfold created, attempt.
    rewrite Hcu, Hcr. reflexivity.
  - intros again Hv' Ht' Ho' Hcu' Hcr'.
    destruct (initializeDatabase_tables again (final (initializeDatabase env w))
                Hv' Ht' Ho' Hcu' Hcr') as [Hout' Htab'].
    split; [exact Hout'|].
    destruct (opened_has_tables env (tables w) Hcu Hcr) as [Hu Hr].
    rewrite Htab', schema_opened, Htab, (created_present again _ Hu Hr). reflexivity.
Qed.

(** A new database file, opened twice. *)
Lemma schema_creation_idempotent_witness :
  db_isValid primary = true /\ db_hasTransactions primary = true /\ db_open primary = true
  /\ sql_fault primary create_usages = false /\ sql_fault primary create_runtimes = false
  /\ schema (tables (final (initializeDatabase primary (start ∅ []))))
     = {[ "usages" := ["input"; "itemId"; "timestamp"];
          "runtimes" := ["extensionId"; "runtime"; "timestamp"] ]}
  /\ schema (tables (final (initializeDatabase primary
                              (final (initializeDatabase primary (start ∅ []))))))
     = schema (tables (final (initializeDatabase primary (start ∅ [])))).
Proof.
  do 5 (split; [reflexivity|]).
  destruct (schema_creation_idempotent primary (start ∅ [])
              eq_refl eq_refl eq_refl eq_refl eq_refl)
    as (_ & _ & _ & _ & _ & Hfresh & Hagain).
  split.
  - exact (Hfresh eq_refl).
  - exact (proj2 (Hagain primary eq_refl eq_refl eq_refl eq_refl eq_refl)).
Defined.

(** C8 as it was written does not hold: the schema is not always exactly the
    two literal tables.  On a store whose [usages] table has other columns,
    and that holds a table of another name, the section returns, [usages]
    keeps its one column and the other table stays. *)
Lemma schema_not_always_literal :
  db_isValid primary = true /\ db_hasTransactions primary = true /\ db_open primary = true
  /\ sql_fault primary create_usages = false /\ sql_fault primary create_runtimes = false
  /\ outcome (initializeDatabase primary (start legacy [])) = Returned tt
  /\ schema (tables (final (initializeDatabase primary (start legacy [])))) !! "usages"
     = Some ["input"]
  /\ schema (tables (final (initializeDatabase primary (start legacy [])))) !! "bookmarks"
     = Some ["url"]
  /\ schema (tables (final (initializeDatabase primary (start legacy []))))
     <> {[ "usages" := usagesColumns; "runtimes" := runtimesColumns ]}.
Proof.
  do 5 (split; [reflexivity|]).
  split; [vm_compute; reflexivity|].
  assert (Hu : schema (tables (final (initializeDatabase primary (start legacy []))))
               !! "usages" = Some ["input"]) by (vm_compute; reflexivity).
  split; [exact Hu|].
  split; [vm_compute; reflexivity|].
  intros Heq.
  assert (Hl : ({[ "usages" := usagesColumns; "runtimes" := runtimesColumns ]}
                  : gmap string (list string)) !! "usages" = Some usagesColumns)
    by reflexivity.
  rewrite Heq, Hl in Hu. unfold usagesColumns in Hu.
  injection Hu as Hu. discriminate Hu.
Qed.

(** ** The definitions at work *)

(** More than one positional argument is not a command: [args.count() == 1]
    fails, and an invocation that cannot connect goes on as the instance. *)
Lemma singletonMechanism_two_tokens (env : Env) (w : World) (a b : QString)
    (more : list QString) :
  waitForConnected env = false ->
  positionalArguments env = a :: b :: more ->
  outcome (singletonMechanism env w) = Returned tt.
Proof.
  intros Hconn Hargs.
  assert (Hcount : (Z.of_nat (length (positionalArguments env)) =? 1) = false).
  { rewrite Hargs. apply Z.eqb_neq. cbn [length]. lia. }
  unfold singletonMechanism.
  rewrite Hconn, Hcount.
  destruct (listen env); reflexivity.
Qed.

(** [albert toggle] against a running instance: what the client writes is
    what the instance finds on the connection; the instance toggles once and
    answers; the answer is what the client prints before it exits with 0. *)
Example gateway_toggle :
  let client := run toggler (start ∅ []) in
  let instance := dispatchMessage primary (start ∅ [written (events (final client))]) in
  List.filter isFrontendAction (events (final instance)) = [FrontendToggleVisibility]
  /\ written (events (final instance)) = serverReply toggler
  /\ outcome client = Exited 0
  /\ In (Fprintf stdout (cstr ("[12:00:00] [INFO] " ++ DQUOTE ++ "Visibility toggled."
                               ++ DQUOTE ++ LF)))
        (events (final client)).
Proof. vm_compute. repeat split. find_event. Qed.

(** The instance from start to quit, with three connections waiting: one
    toggles, one sends an unknown word, one sends nothing. *)
Example run_primary :
  let r := run primary (start cachedb [cstr "toggle"; cstr "quit"; []]) in
  outcome r = Returned 0
  /\ List.filter isFrontendAction (events (final r)) = [FrontendToggleVisibility]
  /\ written (events (final r)) = cstr "Visibility toggled.Command not supported."
  /\ pending (final r) = []
  /\ rowsOf (tables (final r)) "usages" = [usage "term" "applications.xterm" (days 89)]
  /\ rowsOf (tables (final r)) "runtimes" = [sample "files" 35000 (days 6)]
  /\ durable (final r) = tables (final r).
Proof.
  cbv zeta.
  split; [vm_compute; reflexivity|].
  split; [vm_compute; reflexivity|].
  split; [vm_compute; reflexivity|].
  split; [vm_compute; reflexivity|].
  repeat split; reflexivity.
Qed.

(** A row whose time stamp is NULL has no age and is never pruned. *)
Example prune_keeps_null :
  rowsOf (attempt primary cleanup_usages
            {[ "usages" := {| columns := columnsOf create_usages;
                              rows := [ {[ "input" := VText "x"; "timestamp" := VNull ]} ] |} ]})
         "usages"
  = [ {[ "input" := VText "x"; "timestamp" := VNull ]} ].
Proof. reflexivity. Qed.

(** In exact arithmetic a row exactly 90 days old stays and one a millisecond
    older goes: the comparison is strict. *)
Example prune_keeps_boundary :
  olderThan 1700000000000 90 (VDateTime (1700000000000 - days 90)) = false
  /\ olderThan 1700000000000 90 (VDateTime (1700000000000 - days 90 - 1)) = true.
Proof. vm_compute. split; reflexivity. Qed.

(** * The whole program *)

(** ** The queue of connections *)

Lemma dispatchMessage_service (env : Env) (w : World) (buffered : QByteArray)
    (rest : list QByteArray) :
  pending w = buffered :: rest ->
  dispatchMessage env w = (Returned tt, drained w (serviceOf env buffered) 1).
Proof.
  intros Hp. unfold dispatchMessage, drained, serviceOf, actionOf, replyTo.
  step_world. rewrite Hp. cbn [drop].
  destruct (bytesAvailable buffered =? 0); cbn [negb]; [step_world; reflexivity|].
  destruct (String.eqb (fromLocal8Bit env buffered) "show"); [step_world; reflexivity|].
  destruct (String.eqb (fromLocal8Bit env buffered) "hide"); [step_world; reflexivity|].
  destruct (String.eqb (fromLocal8Bit env buffered) "toggle"); step_world; reflexivity.
Qed.


Lemma drained_drained (w : World) (l l' : list Event) (n n' : nat) :
  drained (drained w l n) l' n' = drained w (l ++ l') (n + n').
Proof.
  unfold drained. cbn [events ticks tables txn pending].
  rewrite <- app_assoc, drop_drop. reflexivity.
Qed.

Lemma serve_prefix (env : Env) (connections : list QByteArray) :
  forall (w : World) (rest : list QByteArray),
    pending w = (connections ++ rest)%list ->
    serve env (length connections) w =
      (Returned tt, drained w (flat_map (serviceOf env) connections) (length connections)).
Proof.
  induction connections as [|c connections IH]; intros w rest Hp.
  - cbn [length serve flat_map]. unfold ret, drained. rewrite app_nil_r.
    destruct w; reflexivity.
  - cbn [length serve flat_map]. unfold bind.
    rewrite (dispatchMessage_service env w c (connections ++ rest) Hp).
    rewrite (IH (drained w (serviceOf env c) 1) rest).
    + rewrite drained_drained. reflexivity.
    + unfold drained. cbn [pending]. rewrite Hp. reflexivity.
Qed.


Lemma serviceOf_written (env : Env) (buffered : QByteArray) :
  written (serviceOf env buffered) = replyTo env buffered.
Proof.
  unfold serviceOf, actionOf, replyTo;
  destruct (bytesAvailable buffered =? 0); [reflexivity|];
  destruct (String.eqb (fromLocal8Bit env buffered) "show"); [apply app_nil_r|];
  destruct (String.eqb (fromLocal8Bit env buffered) "hide"); [apply app_nil_r|];
  destruct (String.eqb (fromLocal8Bit env buffered) "toggle"); apply app_nil_r.
Qed.




(** ** How a run ends *)

Section Always.

Variable env : Env.

Lemma always_ret {A} (a : A) : always (ret a) (Returned a).
Proof. intros w. reflexivity. Qed.

Lemma always_exit {A} (status : Z) : always (@exit A status) (Exited status).
Proof. intros w. reflexivity. Qed.

Lemma always_emit (e : Event) : always (emit e) (Returned tt).
Proof. intros w. reflexivity. Qed.

Lemma always_bind {A B} (m : M A) (k : A -> M B) (a : A) (o : Outcome B) :
  always m (Returned a) -> always (k a) o -> always (bind m k) o.
Proof.
  intros Hm Hk w. specialize (Hm w). unfold bind, outcome in *.
  destruct (m w) as [o1 w1]. cbn [fst] in Hm. subst o1. apply Hk.
Qed.

Lemma always_bind_exit {A B} (m : M A) (k : A -> M B) (status : Z) :
  always m (Exited status) -> always (bind m k) (Exited status).
Proof.
  intros Hm w. specialize (Hm w). unfold bind, outcome in *.
  destruct (m w) as [o1 w1]. cbn [fst] in Hm. subst o1. reflexivity.
Qed.

Lemma always_bind_any {A B} (m : M A) (k : A -> M B) (o : Outcome B) :
  returns m -> (forall a, always (k a) o) -> always (bind m k) o.
Proof.
  intros Hm Hk w. destruct (Hm w) as [a Ha]. unfold bind, outcome in *.
  destruct (m w) as [o1 w1]. cbn [fst] in Ha. subst o1. apply Hk.
Qed.

Lemma always_bind_assoc {A B C} (m : M A) (k : A -> M B) (g : B -> M C) (o : Outcome C) :
  always (bind m (fun a => bind (k a) g)) o -> always (bind (bind m k) g) o.
Proof.
  intros H w. specialize (H w). unfold bind, outcome in *.
  destruct (m w) as [[a| |] w1]; exact H.
Qed.

Lemma always_forEach {A} (l : list A) (body : A -> M unit) :
  (forall x, always (body x) (Returned tt)) -> always (forEach l body) (Returned tt).
Proof.
  intros Hbody. induction l as [|x l IH]; cbn [forEach].
  - apply always_ret.
  - eapply always_bind; [apply Hbody | exact IH].
Qed.

Lemma always_returns {A} (m : M A) (a : A) : always m (Returned a) -> returns m.
Proof. intros H w. exists a. apply H. Qed.

Lemma always_myMessageOutput (type : QtMsgType) (context : QMessageLogContext)
    (message : QString) :
  always (myMessageOutput env type context message)
         (match type with QtFatalMsg => Exited 1 | _ => Returned tt end).
Proof. intros w. destruct type; reflexivity. Qed.

Lemma always_qDebug (items : list StreamItem) : always (qDebug env items) (Returned tt).
Proof. apply (always_myMessageOutput QtDebugMsg). Qed.

Lemma always_qInfo (items : list StreamItem) : always (qInfo env items) (Returned tt).
Proof. apply (always_myMessageOutput QtInfoMsg). Qed.

Lemma always_qWarning (items : list StreamItem) : always (qWarning env items) (Returned tt).
Proof. apply (always_myMessageOutput QtWarningMsg). Qed.

Lemma always_qCritical (items : list StreamItem) : always (qCritical env items) (Returned tt).
Proof. apply (always_myMessageOutput QtCriticalMsg). Qed.

Lemma always_qFatal {A} (message : QString) : always (@qFatal env A message) (Exited 1).
Proof. apply always_bind_exit. apply (always_myMessageOutput QtFatalMsg). Qed.

Lemma always_transaction : always (transaction env) (Returned tt).
Proof. intros w. reflexivity. Qed.

Lemma always_commit : always (commit env) (Returned tt).
Proof. intros w. reflexivity. Qed.

Lemma returns_exec (s : Stmt) : returns (exec env s).
Proof. intros w. rewrite exec_eq. eexists. reflexivity. Qed.

Lemma always_exec_create (name : string) (cols : list Column) :
  always (exec env (CreateTableIfNotExists name cols))
         (Returned (negb (sql_fault env (CreateTableIfNotExists name cols)))).
Proof.
  intros w. rewrite exec_eq. unfold outcome, runs. cbn [fst sqlite_step].
  destruct (sql_fault env _); [reflexivity|].
  destruct (tables w !! name); reflexivity.
Qed.

End Always.

Create HintDb always.

#[local] Hint Resolve always_ret always_exit always_emit always_qDebug always_qInfo
  always_qWarning always_qCritical always_qFatal always_transaction always_commit
  : always.

(** One step of a straight-line computation whose next action always
    returns the unit. *)
Ltac always_step :=
  match goal with
  | |- always _ _ => progress cbn [negb]
  | |- always (bind (exec ?e (CreateTableIfNotExists ?n ?c)) _) _ =>
      eapply always_bind; [apply always_exec_create|]; cbv beta;
      destruct (sql_fault e (CreateTableIfNotExists n c)) eqn:?; cbn [negb]
  | |- always (bind (exec _ _) _) _ =>
      apply always_bind_any; [apply returns_exec | intros ?]
  | |- always (bind (when true _) _) _ => unfold when at 1; cbv iota
  | |- always (bind (when false _) _) _ => unfold when at 1; cbv iota
  | |- always (bind (when ?b _) _) _ => destruct b eqn:?
  | |- always (bind (if ?b then _ else _) _) _ => destruct b eqn:?
  | |- always (bind (match ?x with _ => _ end) _) _ => destruct x eqn:?
  | |- always (bind (forEach _ _) _) _ => cbn [forEach]
  | |- always (bind (bind _ _) _) _ => apply always_bind_assoc
  | |- always (bind (qFatal _ _) _) _ => apply always_bind_exit; apply always_qFatal
  | |- always (bind (exit _) _) _ => apply always_bind_exit; apply always_exit
  | |- always (bind _ _) _ =>
      eapply always_bind; [solve [auto with always]|]; cbv beta
  | |- always (forEach _ _) _ => apply always_forEach; intros ?
  | |- always (when ?b _) _ => destruct b eqn:?; unfold when
  | |- always (if ?b then _ else _) _ => destruct b eqn:?
  | |- always (match ?x with _ => _ end) _ => destruct x eqn:?
  | |- always (let _ := _ in _) _ => cbv zeta
  end.

Ltac always_auto := repeat always_step; auto with always.

Section Phases.

Variable env : Env.

Lemma always_initializeApplication : always (initializeApplication env) (Returned tt).
Proof. unfold initializeApplication. always_auto. Qed.

Lemma always_parseCommandline :
  always (parseCommandline env)
         (match process_exits env with
          | Some status => Exited status
          | None => Returned tt
          end).
Proof. unfold parseCommandline. always_auto. Qed.

Lemma always_singletonMechanism :
  always (singletonMechanism env)
         (if waitForConnected env then Exited EXIT_SUCCESS
          else if Z.of_nat (length (positionalArguments env)) =? 1 then Exited EXIT_FAILURE
          else Returned tt).
Proof. unfold singletonMechanism. always_auto. Qed.

Lemma always_initializePaths :
  always (initializePaths env)
         (if negb (mkpath env (DataLocation env)) then Exited 1
          else if negb (mkpath env (CacheLocation env)) then Exited 1
          else if negb (mkpath env (AppConfigLocation env)) then Exited 1
          else Returned tt).
Proof. unfold initializePaths. always_auto. Qed.

(** The first-run section never stops the process; it asks for the settings
    dialog exactly on a first run that the user answers with yes. *)
Lemma always_detectFirstRun :
  always (detectFirstRun env)
         (Returned (negb (exists_last_used_version env) && firstRunAnswerYes env)).
Proof. unfold detectFirstRun. always_auto. Qed.

Lemma returns_detectFirstRun : returns (detectFirstRun env).
Proof. exact (always_returns _ _ always_detectFirstRun). Qed.

Lemma always_initializeDatabase :
  always (initializeDatabase env)
         (if negb (db_isValid env) then Exited 1
          else if negb (db_hasTransactions env) then Exited 1
          else if negb (db_open env) then Exited 1
          else if sql_fault env create_usages then Exited 1
          else if sql_fault env create_runtimes then Exited 1
          else Returned tt).
Proof. unfold initializeDatabase, create_usages, create_runtimes. always_auto. Qed.

Lemma always_initializeComponents : always (initializeComponents env) (Returned tt).
Proof. unfold initializeComponents. always_auto. Qed.

Lemma always_buildTrayIcon : always (buildTrayIcon env) (Returned tt).
Proof. unfold buildTrayIcon. always_auto. Qed.

Lemma always_standaloneNote : always (standaloneNote env) (Returned tt).
Proof. unfold standaloneNote. always_auto. Qed.

(** The value [setupHotkey] hands on when it returns. *)
Lemma always_setupHotkey (showSettingsWhenInitialized : bool) :
  always (setupHotkey env showSettingsWhenInitialized)
         (match value_hotkey env with
          | Some hotkey =>
              if registerHotkey env hotkey then Returned showSettingsWhenInitialized
              else Exited 1
          | None =>
              match settings_hotkey env with
              | Some hotkey =>
                  Returned (if registerHotkey env hotkey then showSettingsWhenInitialized
                            else if hotkeyAnswerYes env then true
                                 else showSettingsWhenInitialized)
              | None => Returned showSettingsWhenInitialized
              end
          end).
Proof.
  unfold setupHotkey.
  destruct (value_hotkey env) as [hotkey|].
  - destruct (registerHotkey env hotkey); always_auto.
  - destruct (settings_hotkey env) as [hotkey|]; [|always_auto].
    destruct (registerHotkey env hotkey); always_auto.
Qed.

Lemma always_misc (showSettingsWhenInitialized : bool) :
  always (misc env showSettingsWhenInitialized) (Returned tt).
Proof. unfold misc. always_auto. Qed.

Lemma always_signaling : always (signaling env) (Returned tt).
Proof. unfold signaling. always_auto. Qed.

Lemma always_finalizeApplication : always (finalizeApplication env) (Returned tt).
Proof. unfold finalizeApplication. always_auto. Qed.

(** The event loop takes exactly the connections that are waiting, so the
    handler never finds the queue empty. *)
Lemma always_app_exec : always (app_exec env) (Returned (exec_retval env)).
Proof.
  intros w. unfold app_exec, outcome, bind at 1, emit.
  destruct (listen env).
  - cbn [pending]. unfold bind.
    rewrite (serve_prefix env (pending w) _ []) by (cbn [pending]; rewrite app_nil_r; reflexivity).
    reflexivity.
  - reflexivity.
Qed.

End Phases.

#[local] Hint Resolve always_initializeApplication always_initializeComponents
  always_buildTrayIcon always_standaloneNote always_misc always_signaling
  always_finalizeApplication always_app_exec : always.

(** X1. How a run that opens no message box ends is decided by the
    environment alone, in this order: an exit of the command-line parser;
    status 0 when an instance answers; failure for a lone command without
    instance; status 1 for the first directory that cannot be made, for a
    store that cannot be opened or whose tables cannot be created, and for a
    hotkey given on the command line that cannot be registered; otherwise the
    status of the event loop.  Such a run never crashes, and neither the
    store on disk nor the connections served in the event loop change the
    status.  (A message box would run an event loop before the front-end
    exists; those runs are left out.) *)
Theorem run_verdict (env : Env) (w : World) :
  withoutDialog env w -> outcome (run env w) = verdict env.
Proof.
  intros _. revert w. change (always (run env) (verdict env)).
  unfold run, startup, remainingInitialization, verdict.
  apply always_bind_assoc.
  eapply always_bind; [apply always_initializeApplication|].
  apply always_bind_assoc.
  destruct (process_exits env) as [status|] eqn:Hparse.
  { apply always_bind_exit.
    generalize (always_parseCommandline env). rewrite Hparse. exact (fun H => H). }
  eapply always_bind.
  { generalize (always_parseCommandline env). rewrite Hparse. exact (fun H => H). }
  apply always_bind_assoc.
  pose proof (always_singletonMechanism env) as Hgate.
  destruct (waitForConnected env); [apply always_bind_exit; exact Hgate|].
  destruct (Z.of_nat (length (positionalArguments env)) =? 1);
    [apply always_bind_exit; exact Hgate|].
  eapply always_bind; [exact Hgate|].
  apply always_bind_assoc.
  pose proof (always_initializePaths env) as Hpaths.
  destruct (negb (mkpath env (DataLocation env)));
    [apply always_bind_exit; exact Hpaths|].
  destruct (negb (mkpath env (CacheLocation env)));
    [apply always_bind_exit; exact Hpaths|].
  destruct (negb (mkpath env (AppConfigLocation env)));
    [apply always_bind_exit; exact Hpaths|].
  eapply always_bind; [exact Hpaths|].
  apply always_bind_assoc.
  apply always_bind_any; [apply returns_detectFirstRun | intros show].
  apply always_bind_assoc.
  pose proof (always_initializeDatabase env) as Hdb.
  destruct (negb (db_isValid env)); [apply always_bind_exit; exact Hdb|].
  destruct (negb (db_hasTransactions env)); [apply always_bind_exit; exact Hdb|].
  destruct (negb (db_open env)); [apply always_bind_exit; exact Hdb|].
  destruct (sql_fault env create_usages); [apply always_bind_exit; exact Hdb|].
  destruct (sql_fault env create_runtimes); [apply always_bind_exit; exact Hdb|].
  eapply always_bind; [exact Hdb|].
  do 3 (apply always_bind_assoc; eapply always_bind; [solve [auto with always]|]).
  apply always_bind_assoc.
  pose proof (always_setupHotkey env show) as Hhotkey.
  destruct (value_hotkey env) as [hotkey|].
  - destruct (registerHotkey env hotkey); [|apply always_bind_exit; exact Hhotkey].
    eapply always_bind; [exact Hhotkey|]. always_auto.
  - destruct (settings_hotkey env) as [hotkey|];
      (eapply always_bind; [exact Hhotkey|]); always_auto.
Qed.

Lemma run_verdict_witness :
  withoutDialog primary (start cachedb [cstr "toggle"; []])
  /\ outcome (run primary (start cachedb [cstr "toggle"; []])) = Returned 0.
Proof.
  assert (H : withoutDialog primary (start cachedb [cstr "toggle"; []]))
    by (vm_compute; reflexivity).
  split; [exact H|].
  exact (run_verdict primary (start cachedb [cstr "toggle"; []]) H).
Defined.

(** ** The store on disk *)

Section Store.

Variable env : Env.

Lemma attempt_fault (s : Stmt) (db : gmap string Table) :
  sql_fault env s = true -> attempt env s db = db.
Proof. intros H. unfold attempt. rewrite H. reflexivity. Qed.

Lemma runs_fault (s : Stmt) (db : gmap string Table) :
  sql_fault env s = true -> runs env s db = false.
Proof. intros H. unfold runs. rewrite H. reflexivity. Qed.

(** What the database section leaves in the connection and in the rollback
    copy, in every case. *)
Lemma initializeDatabase_store (w : World) :
  (tables (final (initializeDatabase env w)), txn (final (initializeDatabase env w))) =
    if negb (db_isValid env) then (tables w, txn w)
    else if negb (db_hasTransactions env) then (tables w, txn w)
    else if negb (db_open env) then (tables w, txn w)
    else if sql_fault env create_usages then (tables w, begun env w)
    else if sql_fault env create_runtimes then
           (attempt env create_usages (tables w), begun env w)
    else (opened env (tables w), if db_commit env then None else begun env w).
Proof.
  unfold initializeDatabase, begun.
  destruct (db_isValid env); [|reflexivity].
  destruct (db_hasTransactions env); [|reflexivity].
  destruct (db_open env); [|reflexivity].
  cbn [negb]. world_eq.
  rewrite exec_eq. cbn [events ticks tables txn pending].
  destruct (sql_fault env create_usages) eqn:Hcu.
  { rewrite (runs_fault _ _ Hcu), (attempt_fault _ _ Hcu). reflexivity. }
  rewrite (runs_create env _ _ _ Hcu). cbn [negb].
  rewrite exec_eq. cbn [events ticks tables txn pending].
  destruct (sql_fault env create_runtimes) eqn:Hcr.
  { rewrite (runs_fault _ _ Hcr), (attempt_fault _ _ Hcr). reflexivity. }
  rewrite (runs_create env _ _ _ Hcr). cbn [negb].
  rewrite exec_eq. cbn [events ticks tables txn pending].
  destruct (runs env cleanup_usages _); cbn [negb];
    rewrite exec_eq; cbn [events ticks tables txn pending];
    destruct (runs env cleanup_runtimes _); reflexivity.
Qed.

Lemma rowsOf_attempt_incl (s : Stmt) (db : gmap string Table) (name : string)
    (r : gmap string Value) :
  In r (rowsOf (attempt env s db) name) -> In r (rowsOf db name).
Proof.
  destruct s as [table cols|table column days].
  - rewrite rowsOf_create. auto.
  - destruct (decide (name = table)) as [->|Hne].
    + rewrite rowsOf_delete. destruct (runs env _ db); [|auto].
      rewrite filter_In. tauto.
    + rewrite rowsOf_delete_other by exact Hne. auto.
Qed.

Lemma columns_attempt (s : Stmt) (db : gmap string Table) (name : string) (t : Table) :
  db !! name = Some t ->
  exists t', attempt env s db !! name = Some t' /\ columns t' = columns t.
Proof.
  intros Ht. unfold attempt.
  destruct (sql_fault env s); [eauto|].
  destruct s as [table cols|table column days]; cbn [sqlite_step].
  - destruct (db !! table) eqn:E; [eauto|].
    rewrite lookup_insert_ne by congruence. eauto.
  - destruct (db !! table) as [t0|] eqn:E; [|eauto].
    destruct (hasColumn t0 column); [|eauto].
    destruct (decide (name = table)) as [->|Hne].
    + rewrite lookup_insert_eq. eexists. split; [reflexivity|]. cbn [columns]. congruence.
    + rewrite lookup_insert_ne by congruence. eauto.
Qed.

End Store.

(** X8. The database section only ever removes rows: no row appears in any table,
    no table other than [usages] and [runtimes] is touched, and a table that
    exists keeps its columns, whichever statements fail. *)
Theorem initializeDatabase_only_removes (env : Env) (w : World) :
  (forall name r,
     In r (rowsOf (tables (final (initializeDatabase env w))) name) ->
     In r (rowsOf (tables w) name))
  /\ (forall name, name <> "usages" -> name <> "runtimes" ->
        tables (final (initializeDatabase env w)) !! name = tables w !! name)
  /\ (forall name t, tables w !! name = Some t ->
        exists t', tables (final (initializeDatabase env w)) !! name = Some t'
                   /\ columns t' = columns t).
Proof.
  pose proof (initializeDatabase_store env w) as Hstore.
  assert (Htab : tables (final (initializeDatabase env w)) = tables w
                 \/ tables (final (initializeDatabase env w))
                    = attempt env create_usages (tables w)
                 \/ tables (final (initializeDatabase env w)) = opened env (tables w)).
  { destruct (negb (db_isValid env)); [left; congruence|].
    destruct (negb (db_hasTransactions env)); [left; congruence|].
    destruct (negb (db_open env)); [left; congruence|].
    destruct (sql_fault env create_usages); [left; congruence|].
    destruct (sql_fault env create_runtimes); [right; left; congruence|].
    right; right; congruence. }
  clear Hstore.
  split; [|split].
  - intros name r.
    destruct Htab as [->|[->| ->]]; [auto | apply rowsOf_attempt_incl |].
    unfold opened, created. intros Hin.
    do 4 apply rowsOf_attempt_incl in Hin. exact Hin.
  - intros name Hu Hr.
    destruct Htab as [->|[->| ->]]; [reflexivity| |].
    + unfold create_usages. apply attempt_create_other. exact Hu.
    + unfold opened, created, cleanup_runtimes, cleanup_usages, create_runtimes, create_usages.
      rewrite !attempt_delete_other, !attempt_create_other by assumption. reflexivity.
  - intros name t Ht.
    destruct Htab as [->|[->| ->]]; [eauto | apply columns_attempt; exact Ht |].
    unfold opened, created.
    destruct (columns_attempt env create_usages _ _ _ Ht) as (t1 & H1 & E1).
    destruct (columns_attempt env create_runtimes _ _ _ H1) as (t2 & H2 & E2).
    destruct (columns_attempt env cleanup_usages _ _ _ H2) as (t3 & H3 & E3).
    destruct (columns_attempt env cleanup_runtimes _ _ _ H3) as (t4 & H4 & E4).
    exists t4. split; [exact H4 | congruence].
Qed.

(** X9. With a transaction open, the four statements reach the disk together or
    not at all; when BEGIN fails each statement that ran is on disk at once. *)
Theorem initializeDatabase_atomic (env : Env) (w : World) :
  txn w = None ->
  durable (final (initializeDatabase env w)) =
    if db_transaction env then
      if committed env then opened env (tables w) else tables w
    else tables (final (initializeDatabase env w)).
Proof.
  intros Htxn.
  pose proof (initializeDatabase_store env w) as Hstore.
  unfold durable, committed.
  destruct (txn (final (initializeDatabase env w))) as [snapshot|] eqn:Etxn;
    unfold begun in Hstore; rewrite Htxn in Hstore;
    destruct (db_isValid env); cbn [negb andb] in *;
    try (destruct (db_transaction env); congruence);
    destruct (db_hasTransactions env); cbn [negb andb] in *;
    try (destruct (db_transaction env); congruence);
    destruct (db_open env); cbn [negb andb] in *;
    try (destruct (db_transaction env); congruence);
    destruct (sql_fault env create_usages); cbn [negb andb] in *;
    try (destruct (db_transaction env); congruence);
    destruct (sql_fault env create_runtimes); cbn [negb andb] in *;
    try (destruct (db_transaction env); congruence);
    destruct (db_commit env); destruct (db_transaction env); congruence.
Qed.

Lemma initializeDatabase_atomic_witness :
  txn (start cachedb []) = None
  /\ durable (final (initializeDatabase primary (start cachedb [])))
     = opened primary cachedb.
Proof.
  split; [reflexivity|].
  exact (initializeDatabase_atomic primary (start cachedb []) eq_refl).
Defined.

Lemma filter_filter_same {A} (f : A -> bool) (l : list A) :
  List.filter f (List.filter f l) = List.filter f l.
Proof.
  induction l as [|x l IH]; [reflexivity|]. cbn [List.filter].
  destruct (f x) eqn:E; [|exact IH]. cbn [List.filter]. rewrite E, IH. reflexivity.
Qed.

Lemma pruneTable_pruneTable (now_ms : Z) (column : string) (days : Z) (t : Table) :
  pruneTable now_ms column days (pruneTable now_ms column days t)
  = pruneTable now_ms column days t.
Proof.
  unfold pruneTable. destruct (hasColumn t column) eqn:E.
  - change (hasColumn {| columns := columns t; rows := _ |} column) with (hasColumn t column).
    rewrite E. cbn [columns rows]. rewrite filter_filter_same. reflexivity.
  - rewrite E. reflexivity.
Qed.

Section Lookup.

Variable env : Env.

Lemma attempt_create_lookup (name : string) (cols : list Column) (db : gmap string Table) :
  attempt env (CreateTableIfNotExists name cols) db !! name =
    if sql_fault env (CreateTableIfNotExists name cols) then db !! name
    else Some (match db !! name with
               | Some t => t
               | None => {| columns := cols; rows := [] |}
               end).
Proof.
  destruct (sql_fault env _) eqn:Hf.
  - rewrite attempt_fault by exact Hf. reflexivity.
  - apply attempt_create_same. exact Hf.
Qed.

Lemma attempt_delete_lookup (table column : string) (days : Z) (db : gmap string Table) :
  attempt env (DeleteOlderThan table column days) db !! table =
    if sql_fault env (DeleteOlderThan table column days) then db !! table
    else pruneTable (now env) column days <$> db !! table.
Proof.
  unfold attempt, pruneTable.
  destruct (sql_fault env _); [reflexivity|]. cbn [sqlite_step].
  destruct (db !! table) as [t|] eqn:E; [|rewrite E; reflexivity].
  destruct (hasColumn t column) eqn:Hc.
  - rewrite lookup_insert_eq. cbn. rewrite Hc. reflexivity.
  - rewrite E. cbn. rewrite Hc. reflexivity.
Qed.

Lemma opened_usages (db : gmap string Table) :
  opened env db !! "usages" =
    (if sql_fault env cleanup_usages then fun o => o
     else fmap (pruneTable (now env) "timestamp" 90))
      (if sql_fault env create_usages then db !! "usages"
       else Some (match db !! "usages" with
                  | Some t => t
                  | None => {| columns := columnsOf create_usages; rows := [] |}
                  end)).
Proof.
  unfold opened, created, cleanup_runtimes, cleanup_usages.
  rewrite attempt_delete_other by discriminate.
  rewrite attempt_delete_lookup.
  unfold create_runtimes. rewrite attempt_create_other by discriminate.
  unfold create_usages. rewrite attempt_create_lookup.
  destruct (sql_fault env (DeleteOlderThan _ _ _)); reflexivity.
Qed.

Lemma opened_runtimes (db : gmap string Table) :
  opened env db !! "runtimes" =
    (if sql_fault env cleanup_runtimes then fun o => o
     else fmap (pruneTable (now env) "timestamp" 7))
      (if sql_fault env create_runtimes then db !! "runtimes"
       else Some (match db !! "runtimes" with
                  | Some t => t
                  | None => {| columns := columnsOf create_runtimes; rows := [] |}
                  end)).
Proof.
  unfold opened, created, cleanup_runtimes, cleanup_usages.
  rewrite attempt_delete_lookup.
  rewrite attempt_delete_other by discriminate.
  unfold create_runtimes. rewrite attempt_create_lookup.
  unfold create_usages. rewrite attempt_create_other by discriminate.
  destruct (sql_fault env (DeleteOlderThan _ _ _)); reflexivity.
Qed.

Lemma opened_other (db : gmap string Table) (name : string) :
  name <> "usages" -> name <> "runtimes" -> opened env db !! name = db !! name.
Proof.
  intros Hu Hr.
  unfold opened, created, cleanup_runtimes, cleanup_usages, create_runtimes, create_usages.
  rewrite !attempt_delete_other, !attempt_create_other by assumption. reflexivity.
Qed.

Lemma opened_opened (db : gmap string Table) : opened env (opened env db) = opened env db.
Proof.
  apply map_eq. intros name.
  destruct (decide (name = "usages")) as [->|Hu].
  { rewrite (opened_usages (opened env db)), (opened_usages db).
    destruct (sql_fault env cleanup_usages), (sql_fault env create_usages),
      (db !! "usages") as [t|]; cbn; rewrite ?pruneTable_pruneTable; reflexivity. }
  destruct (decide (name = "runtimes")) as [->|Hr].
  { rewrite (opened_runtimes (opened env db)), (opened_runtimes db).
    destruct (sql_fault env cleanup_runtimes), (sql_fault env create_runtimes),
      (db !! "runtimes") as [t|]; cbn; rewrite ?pruneTable_pruneTable; reflexivity. }
  rewrite !opened_other by assumption. reflexivity.
Qed.

End Lookup.

(** X10. Opening the store a second time at the same instant, with the same
    statements failing, changes nothing: no row, no column, no table. *)
Theorem initializeDatabase_twice (env : Env) (w : World) :
  db_isValid env = true -> db_hasTransactions env = true -> db_open env = true ->
  sql_fault env create_usages = false -> sql_fault env create_runtimes = false ->
  outcome (initializeDatabase env (final (initializeDatabase env w))) = Returned tt
  /\ tables (final (initializeDatabase env (final (initializeDatabase env w))))
     = tables (final (initializeDatabase env w)).
Proof.
  intros Hv Ht Ho Hcu Hcr.
  destruct (initializeDatabase_tables env w Hv Ht Ho Hcu Hcr) as [_ Htab].
  destruct (initializeDatabase_tables env (final (initializeDatabase env w))
              Hv Ht Ho Hcu Hcr) as [Hout' Htab'].
  split; [exact Hout'|].
  rewrite Htab', Htab. apply opened_opened.
Qed.

Lemma initializeDatabase_twice_witness :
  db_isValid primary = true /\ db_hasTransactions primary = true /\ db_open primary = true
  /\ sql_fault primary create_usages = false /\ sql_fault primary create_runtimes = false
  /\ outcome (initializeDatabase primary
                (final (initializeDatabase primary (start cachedb [])))) = Returned tt
  /\ tables (final (initializeDatabase primary
                      (final (initializeDatabase primary (start cachedb [])))))
     = tables (final (initializeDatabase primary (start cachedb []))).
Proof.
  do 5 (split; [reflexivity|]).
  exact (initializeDatabase_twice primary (start cachedb [])
           eq_refl eq_refl eq_refl eq_refl eq_refl).
Defined.

(** ** What a run does to the endpoint and the sockets *)

Section Quiet.

Variable env : Env.

Lemma quiet_ret {A} (a : A) : quiet (ret a).
Proof. intros w. split; reflexivity. Qed.

Lemma quiet_exit {A} (status : Z) : quiet (@exit A status).
Proof. intros w. split; reflexivity. Qed.

Lemma quiet_crash {A} : quiet (@crash A).
Proof. intros w. split; reflexivity. Qed.

Lemma quiet_emit (e : Event) : isControl e = false -> quiet (emit e).
Proof.
  intros He w. unfold emit, final. cbn [snd events pending].
  rewrite List.filter_app. cbn [List.filter]. rewrite He, app_nil_r. auto.
Qed.

Lemma quiet_bind {A B} (m : M A) (k : A -> M B) :
  quiet m -> (forall a, quiet (k a)) -> quiet (bind m k).
Proof.
  intros Hm Hk w. destruct (Hm w) as [Hl Hp].
  unfold bind, final in *. destruct (m w) as [[a| |] w1]; cbn [snd] in *; auto.
  destruct (Hk a w1) as [Hl' Hp']. unfold final in *. split; congruence.
Qed.

Lemma quiet_when (b : bool) (m : M unit) : quiet m -> quiet (when b m).
Proof. destruct b; [auto | intros _; apply quiet_ret]. Qed.

Lemma quiet_forEach {A} (l : list A) (body : A -> M unit) :
  (forall x, quiet (body x)) -> quiet (forEach l body).
Proof.
  intros Hbody. induction l as [|x l IH]; cbn [forEach].
  - apply quiet_ret.
  - apply quiet_bind; [apply Hbody | intros _; exact IH].
Qed.

Lemma quiet_myMessageOutput (type : QtMsgType) (context : QMessageLogContext)
    (message : QString) :
  quiet (myMessageOutput env type context message).
Proof.
  intros w. destruct type; unfold final; cbn;
    rewrite <- ?app_assoc, List.filter_app; cbn [List.filter app isControl];
    rewrite app_nil_r; auto.
Qed.

Lemma quiet_qFatal {A} (message : QString) : quiet (@qFatal env A message).
Proof.
  apply quiet_bind; [apply quiet_myMessageOutput | intros _; apply quiet_crash].
Qed.

Lemma quiet_transaction : quiet (transaction env).
Proof.
  intros w. unfold transaction, final. cbn [snd events pending].
  rewrite List.filter_app. cbn. rewrite app_nil_r. auto.
Qed.

Lemma quiet_commit : quiet (commit env).
Proof.
  intros w. unfold commit, final. cbn [snd events pending].
  rewrite List.filter_app. cbn. rewrite app_nil_r. auto.
Qed.

Lemma quiet_exec (s : Stmt) : quiet (exec env s).
Proof.
  intros w. rewrite exec_eq. unfold final. cbn [snd events pending].
  rewrite List.filter_app. cbn. rewrite app_nil_r. auto.
Qed.

End Quiet.

Create HintDb quiet.

#[local] Hint Resolve quiet_ret quiet_exit quiet_crash quiet_when quiet_forEach
  quiet_myMessageOutput quiet_qFatal quiet_transaction quiet_commit quiet_exec : quiet.

Ltac quiet_step :=
  match goal with
  | |- quiet (bind _ _) => apply quiet_bind; [|intros ?]
  | |- quiet (emit _) => apply quiet_emit; reflexivity
  | |- quiet (if ?b then _ else _) => destruct b
  | |- quiet (match ?x with _ => _ end) => destruct x
  | |- quiet (when _ _) => apply quiet_when
  | |- quiet (forEach _ _) => apply quiet_forEach; intros ?
  | |- quiet (let _ := _ in _) => cbv zeta
  | |- _ => solve [auto with quiet]
  end.

Section QuietPhases.

Variable env : Env.

Lemma quiet_qDebug (items : list StreamItem) : quiet (qDebug env items).
Proof. apply quiet_myMessageOutput. Qed.

Lemma quiet_initializeApplication : quiet (initializeApplication env).
Proof. unfold initializeApplication, qDebug. repeat quiet_step. Qed.

Lemma quiet_parseCommandline : quiet (parseCommandline env).
Proof. unfold parseCommandline, qDebug. repeat quiet_step. Qed.

Lemma quiet_initializePaths : quiet (initializePaths env).
Proof. unfold initializePaths, qDebug. repeat quiet_step. Qed.

Lemma quiet_detectFirstRun : quiet (detectFirstRun env).
Proof. unfold detectFirstRun, qDebug, qCritical. repeat quiet_step. Qed.

Lemma quiet_initializeDatabase : quiet (initializeDatabase env).
Proof. unfold initializeDatabase, qDebug, qWarning. repeat quiet_step. Qed.

Lemma quiet_initializeComponents : quiet (initializeComponents env).
Proof. unfold initializeComponents, qDebug. repeat quiet_step. Qed.

Lemma quiet_buildTrayIcon : quiet (buildTrayIcon env).
Proof. unfold buildTrayIcon, qDebug. repeat quiet_step. Qed.

Lemma quiet_standaloneNote : quiet (standaloneNote env).
Proof. unfold standaloneNote. repeat quiet_step. Qed.

Lemma quiet_setupHotkey (showSettingsWhenInitialized : bool) :
  quiet (setupHotkey env showSettingsWhenInitialized).
Proof. unfold setupHotkey, qDebug. repeat quiet_step. Qed.

Lemma quiet_signaling : quiet (signaling env).
Proof. unfold signaling, qDebug. repeat quiet_step. Qed.

End QuietPhases.

Lemma filter_within (P Q : Event -> bool) (l : list Event) :
  (forall e, Q e = false -> P e = false) ->
  List.filter P (List.filter Q l) = List.filter P l.
Proof.
  intros H. induction l as [|e l IH]; [reflexivity|]. cbn [List.filter].
  destruct (Q e) eqn:E.
  - cbn [List.filter]. rewrite IH. reflexivity.
  - rewrite (H e E). exact IH.
Qed.

Section Does.

Variable env : Env.
Variable P : Event -> bool.
Hypothesis P_control : forall e, isControl e = false -> P e = false.

Lemma does_conseq {A} (m : M A) (q q1 q2 : list QByteArray) (o1 o2 : Outcome A)
    (l1 l2 : list Event) :
  does P m q o1 l1 q1 -> o1 = o2 -> l1 = l2 -> q1 = q2 -> does P m q o2 l2 q2.
Proof. intros H <- <- <-. exact H. Qed.

Lemma does_quiet {A} (m : M A) (o : Outcome A) (q : list QByteArray) :
  always m o -> quiet m -> does P m q o [] q.
Proof.
  intros Ho Hq w Hp. destruct (Hq w) as [Hl Hp'].
  split; [apply Ho|]. split; [|congruence].
  rewrite app_nil_r, <- (filter_within P isControl (events (final (m w)))) by exact P_control.
  rewrite Hl. apply filter_within. exact P_control.
Qed.

Lemma does_ret {A} (a : A) (q : list QByteArray) : does P (ret a) q (Returned a) [] q.
Proof. intros w Hq. cbn. rewrite app_nil_r. auto. Qed.

Lemma does_emit (e : Event) (q : list QByteArray) :
  does P (emit e) q (Returned tt) (List.filter P [e]) q.
Proof.
  intros w Hq. unfold emit, outcome, final. cbn [fst snd events pending].
  rewrite List.filter_app. auto.
Qed.

Lemma does_bind {A B} (m : M A) (k : A -> M B) (a : A) (o : Outcome B)
    (q q1 q2 : list QByteArray) (l1 l2 : list Event) :
  does P m q (Returned a) l1 q1 -> does P (k a) q1 o l2 q2 ->
  does P (bind m k) q o (l1 ++ l2) q2.
Proof.
  intros Hm Hk w Hq. destruct (Hm w Hq) as (Ho & Hl & Hp).
  unfold bind, outcome, final in *. destruct (m w) as [o1 w1]. cbn [fst snd] in *.
  subst o1. destruct (Hk w1 Hp) as (Ho' & Hl' & Hp').
  rewrite app_assoc, <- Hl. auto.
Qed.

Lemma does_bind_any {A B} (m : M A) (k : A -> M B) (o : Outcome B)
    (q q2 : list QByteArray) (l2 : list Event) :
  returns m -> quiet m -> (forall a, does P (k a) q o l2 q2) ->
  does P (bind m k) q o l2 q2.
Proof.
  intros Hr Hm Hk w Hq. destruct (Hr w) as [a Ha]. destruct (Hm w) as [Hl Hp].
  unfold bind, outcome, final in *. destruct (m w) as [o1 w1]. cbn [fst snd] in *.
  subst o1. destruct (Hk a w1) as (Ho' & Hl' & Hp'); [congruence|].
  unfold outcome, final in *.
  split; [exact Ho'|]. split; [|exact Hp'].
  rewrite Hl'. f_equal.
  rewrite <- (filter_within P isControl (events w1)) by exact P_control.
  rewrite Hl. apply filter_within. exact P_control.
Qed.

Lemma does_bind_exit {A B} (m : M A) (k : A -> M B) (status : Z)
    (q q1 : list QByteArray) (l1 : list Event) :
  does P m q (Exited status) l1 q1 -> does P (bind m k) q (Exited status) l1 q1.
Proof.
  intros Hm w Hq. destruct (Hm w Hq) as (Ho & Hl & Hp).
  unfold bind, outcome, final in *. destruct (m w) as [o1 w1]. cbn [fst snd] in *.
  subst o1. auto.
Qed.

Lemma does_bind_assoc {A B C} (m : M A) (k : A -> M B) (g : B -> M C) (o : Outcome C)
    (q q' : list QByteArray) (l : list Event) :
  does P (bind m (fun a => bind (k a) g)) q o l q' -> does P (bind (bind m k) g) q o l q'.
Proof.
  intros H w Hq. specialize (H w Hq). unfold bind, outcome, final in *.
  destruct (m w) as [[a| |] w1]; exact H.
Qed.

Lemma does_skip {A B} (m : M A) (k : A -> M B) (a : A) (o : Outcome B)
    (q q' : list QByteArray) (l : list Event) :
  always m (Returned a) -> quiet m -> does P (k a) q o l q' -> does P (bind m k) q o l q'.
Proof.
  intros Ha Hq Hk.
  exact (does_bind m k a o q q q' [] l (does_quiet m _ q Ha Hq) Hk).
Qed.

Lemma does_stop {A B} (m : M A) (k : A -> M B) (status : Z) (q : list QByteArray) :
  always m (Exited status) -> quiet m -> does P (bind m k) q (Exited status) [] q.
Proof. intros Ha Hq. apply does_bind_exit. apply does_quiet; assumption. Qed.

Lemma does_exit {A} (status : Z) (q : list QByteArray) :
  does P (@exit A status) q (Exited status) [] q.
Proof. intros w Hq. cbn. rewrite app_nil_r. auto. Qed.

Ltac skip :=
  eapply does_skip;
  [ always_auto
  | unfold qDebug, qInfo, qWarning, qCritical; repeat quiet_step
  | cbv beta ].

Lemma does_singletonMechanism (q : list QByteArray) :
  does P (singletonMechanism env) q
       (if waitForConnected env then Exited EXIT_SUCCESS
        else if Z.of_nat (length (positionalArguments env)) =? 1 then Exited EXIT_FAILURE
        else Returned tt)
       (List.filter P
          (if waitForConnected env then
             if Z.of_nat (length (positionalArguments env)) =? 1
             then [SocketWrite (toLocal8Bit env (nth 0 (positionalArguments env) ""))]
             else []
           else if Z.of_nat (length (positionalArguments env)) =? 1 then []
           else [ServerRemoveServer (socketPath env); ServerListen (socketPath env);
                 ServerConnectNewConnection]))
       q.
Proof.
  unfold singletonMechanism. cbv zeta.
  do 3 skip.
  destruct (waitForConnected env).
  - apply does_bind_assoc.
    destruct (Z.of_nat (length (positionalArguments env)) =? 1).
    + apply does_bind_assoc.
      eapply does_conseq;
        [ eapply does_bind; [apply does_emit|]; skip;
          apply does_bind_exit; skip; apply does_exit
        | reflexivity | apply app_nil_r | reflexivity ].
    + skip. apply does_bind_exit. skip. apply does_exit.
  - destruct (Z.of_nat (length (positionalArguments env)) =? 1).
    + apply does_bind_exit. skip. apply does_exit.
    + skip.
      eapply does_conseq;
        [ eapply does_bind; [apply does_emit|]; skip;
          eapply does_bind; [apply does_emit|]; skip;
          apply does_emit
        | reflexivity | | reflexivity ].
      cbn [List.filter].
      destruct (P (ServerRemoveServer _)), (P (ServerListen _)),
        (P ServerConnectNewConnection); reflexivity.
Qed.

Lemma does_misc (showSettingsWhenInitialized : bool) (q : list QByteArray) :
  does P (misc env showSettingsWhenInitialized) q (Returned tt)
       (List.filter P (if showSettingsWhenInitialized then [SettingsWidgetShow] else []))
       q.
Proof.
  unfold misc. cbv zeta.
  do 6 skip.
  destruct showSettingsWhenInitialized; [apply does_emit | apply does_ret].
Qed.

Lemma does_finalizeApplication (q : list QByteArray) :
  does P (finalizeApplication env) q (Returned tt) (List.filter P [ServerClose]) q.
Proof.
  unfold finalizeApplication.
  do 3 skip.
  eapply does_conseq;
    [ eapply does_bind; [apply does_emit|]; do 2 skip;
      apply does_quiet; [apply always_qDebug | apply quiet_qDebug]
    | reflexivity | apply app_nil_r | reflexivity ].
Qed.

Lemma does_app_exec (q : list QByteArray) :
  does P (app_exec env) q (Returned (exec_retval env))
       (List.filter P (if listen env then flat_map (serviceOf env) q else []))
       (if listen env then [] else q).
Proof.
  intros w Hq. unfold app_exec, outcome, final, bind at 1, emit.
  destruct (listen env).
  - cbn [pending]. unfold bind.
    rewrite (serve_prefix env (pending w) _ [])
      by (cbn [pending]; rewrite app_nil_r; reflexivity).
    unfold ret, drained. cbn [fst snd events pending].
    rewrite drop_all, Hq, <- app_assoc, !List.filter_app.
    cbn [List.filter]. rewrite (P_control AppExec) by reflexivity. auto.
  - cbn. rewrite List.filter_app. cbn [List.filter].
    rewrite (P_control AppExec) by reflexivity. rewrite app_nil_r. auto.
Qed.

End Does.

(** The control events of [run], where every message box is one step:
    nothing for an invocation that stops before the gateway section returns,
    other than the command it writes; for the instance the removal, the bind
    and the connection of the handler, then, only if the start-up completes,
    the settings dialog when it was asked for, the service of the connections
    of [pending] in order, and the closing of the server. *)
Lemma run_control (P : Event -> bool) (env : Env) (w : World) :
  (forall e, isControl e = false -> P e = false) ->
  outcome (run env w) = verdict env
  /\ List.filter P (events (final (run env w)))
     = (List.filter P (events w) ++ List.filter P (controlTrace env (pending w)))%list.
Proof.
  intros HP.
  enough (H : does P (run env) (pending w) (verdict env)
                (List.filter P (controlTrace env (pending w)))
                (if returned (verdict env) && listen env then [] else pending w)).
  { destruct (H w eq_refl) as (Ho & Hl & _). auto. }
  generalize (pending w) as q. clear w. intros q.
  unfold run, startup, remainingInitialization, controlTrace, settingsRequested.
  unfold verdict.
  apply does_bind_assoc.
  eapply does_skip;
    [exact HP | apply always_initializeApplication | apply quiet_initializeApplication |].
  apply does_bind_assoc.
  pose proof (always_parseCommandline env) as Hparse.
  destruct (process_exits env) as [status|].
  { cbn [List.filter]. apply does_stop; [exact HP | exact Hparse | apply quiet_parseCommandline]. }
  eapply does_skip; [exact HP | exact Hparse | apply quiet_parseCommandline |].
  apply does_bind_assoc.
  pose proof (does_singletonMechanism env P HP q) as Hgate.
  destruct (waitForConnected env); [apply does_bind_exit; exact Hgate|].
  destruct (Z.of_nat (length (positionalArguments env)) =? 1);
    [apply does_bind_exit; exact Hgate|].
  rewrite List.filter_app.
  eapply does_bind; [exact Hgate|].
  apply does_bind_assoc.
  pose proof (always_initializePaths env) as Hpaths.
  destruct (negb (mkpath env (DataLocation env)));
    [cbn [returned andb List.filter]; apply does_stop; [exact HP | exact Hpaths | apply quiet_initializePaths]|].
  destruct (negb (mkpath env (CacheLocation env)));
    [cbn [returned andb List.filter]; apply does_stop; [exact HP | exact Hpaths | apply quiet_initializePaths]|].
  destruct (negb (mkpath env (AppConfigLocation env)));
    [cbn [returned andb List.filter]; apply does_stop; [exact HP | exact Hpaths | apply quiet_initializePaths]|].
  eapply does_skip; [exact HP | exact Hpaths | apply quiet_initializePaths |].
  apply does_bind_assoc.
  eapply does_skip;
    [exact HP | apply always_detectFirstRun | apply quiet_detectFirstRun |].
  apply does_bind_assoc.
  pose proof (always_initializeDatabase env) as Hdb.
  destruct (negb (db_isValid env));
    [cbn [returned andb List.filter]; apply does_stop; [exact HP | exact Hdb | apply quiet_initializeDatabase]|].
  destruct (negb (db_hasTransactions env));
    [cbn [returned andb List.filter]; apply does_stop; [exact HP | exact Hdb | apply quiet_initializeDatabase]|].
  destruct (negb (db_open env));
    [cbn [returned andb List.filter]; apply does_stop; [exact HP | exact Hdb | apply quiet_initializeDatabase]|].
  destruct (sql_fault env create_usages);
    [cbn [returned andb List.filter]; apply does_stop; [exact HP | exact Hdb | apply quiet_initializeDatabase]|].
  destruct (sql_fault env create_runtimes);
    [cbn [returned andb List.filter]; apply does_stop; [exact HP | exact Hdb | apply quiet_initializeDatabase]|].
  eapply does_skip; [exact HP | exact Hdb | apply quiet_initializeDatabase |].
  apply does_bind_assoc.
  eapply does_skip;
    [exact HP | apply always_initializeComponents | apply quiet_initializeComponents |].
  apply does_bind_assoc.
  eapply does_skip; [exact HP | apply always_buildTrayIcon | apply quiet_buildTrayIcon |].
  apply does_bind_assoc.
  eapply does_skip; [exact HP | apply always_standaloneNote | apply quiet_standaloneNote |].
  apply does_bind_assoc.
  pose proof (always_setupHotkey env
                (negb (exists_last_used_version env) && firstRunAnswerYes env)) as Hhotkey.
  assert (Htail : forall show,
    does P
      (bind (misc env show)
         (fun _ => bind (signaling env)
            (fun _ => bind (qDebug env [Lit "Entering eventloop"])
               (fun _ => bind (app_exec env)
                  (fun retval => bind (finalizeApplication env)
                     (fun _ => ret retval))))))
      q (Returned (exec_retval env))
      (List.filter P
         ((if show then [SettingsWidgetShow] else [])
          ++ (if listen env then flat_map (serviceOf env) q else [])
          ++ [ServerClose]))
      (if listen env then [] else q)).
  { intros show. rewrite !List.filter_app.
    eapply does_bind; [apply does_misc; exact HP|].
    eapply does_skip; [exact HP | apply always_signaling | apply quiet_signaling |].
    eapply does_skip; [exact HP | apply always_qDebug | apply quiet_qDebug |].
    eapply does_bind; [apply does_app_exec; exact HP|].
    eapply does_conseq;
      [eapply does_bind; [apply does_finalizeApplication; exact HP | apply does_ret]
      | reflexivity | apply app_nil_r | reflexivity]. }
  destruct (value_hotkey env) as [hotkey|].
  - destruct (registerHotkey env hotkey);
      [|cbn [returned andb List.filter]; apply does_stop; [exact HP | exact Hhotkey | apply quiet_setupHotkey]].
    eapply does_skip; [exact HP | exact Hhotkey | apply quiet_setupHotkey |].
    cbn [returned andb]. apply does_bind_assoc. apply Htail.
  - destruct (settings_hotkey env) as [hotkey|];
      (eapply does_skip; [exact HP | exact Hhotkey | apply quiet_setupHotkey |]);
      cbn [returned andb]; apply does_bind_assoc; apply Htail.
Qed.

Lemma filter_flat_map {A} (P : Event -> bool) (f : A -> list Event) (l : list A) :
  List.filter P (flat_map f l) = flat_map (fun x => List.filter P (f x)) l.
Proof.
  induction l as [|x l IH]; [reflexivity|].
  cbn [flat_map]. rewrite List.filter_app, IH. reflexivity.
Qed.

Lemma written_flat_map {A} (f : A -> list Event) (l : list A) :
  written (flat_map f l) = flat_map (fun x => written (f x)) l.
Proof.
  induction l as [|x l IH]; [reflexivity|].
  cbn [flat_map]. rewrite written_app, IH. reflexivity.
Qed.

Lemma written_filter (l : list Event) : written (List.filter isSocketWrite l) = written l.
Proof.
  induction l as [|e l IH]; [reflexivity|].
  destruct e; cbn [List.filter isSocketWrite written]; rewrite ?IH; reflexivity.
Qed.

Lemma flat_map_constant {A B} (b : B) (l : list A) :
  flat_map (fun _ => [b]) l = repeat b (length l).
Proof. induction l as [|x l IH]; [reflexivity|]. cbn. rewrite IH. reflexivity. Qed.

Section Service.

Variable env : Env.

Ltac by_cases buffered :=
  unfold serviceOf, actionOf, replyTo;
  destruct (bytesAvailable buffered =? 0); [reflexivity|];
  destruct (String.eqb (fromLocal8Bit env buffered) "show"); [reflexivity|];
  destruct (String.eqb (fromLocal8Bit env buffered) "hide"); [reflexivity|];
  destruct (String.eqb (fromLocal8Bit env buffered) "toggle"); reflexivity.

Lemma serviceOf_server (buffered : QByteArray) :
  List.filter isServerEvent (serviceOf env buffered) = [ServerNextPendingConnection].
Proof. by_cases buffered. Qed.

End Service.

Lemma returned_isInstance (env : Env) :
  returned (verdict env) && isInstance env = returned (verdict env).
Proof.
  unfold verdict, isInstance.
  destruct (process_exits env); [reflexivity|].
  destruct (waitForConnected env); [reflexivity|].
  destruct (Z.of_nat (length (positionalArguments env)) =? 1); [reflexivity|].
  apply andb_true_r.
Qed.

Lemma control_server (e : Event) : isControl e = false -> isServerEvent e = false.
Proof. destruct e; first [reflexivity | discriminate]. Qed.

Lemma control_write (e : Event) : isControl e = false -> isSocketWrite e = false.
Proof. destruct e; first [reflexivity | discriminate]. Qed.

(** X4. The endpoint over a whole run that opens no message box.  An
    invocation that stops in the gateway section, or before it, never touches
    it.  The instance removes, binds and connects once, in this order; in the
    event loop it takes one connection per client and it closes the server
    only when the start-up has completed: a fatal start-up error leaves the
    endpoint behind. *)
Theorem run_endpoint (env : Env) (w : World) :
  withoutDialog env w ->
  List.filter isServerEvent (events (final (run env w)))
  = (List.filter isServerEvent (events w)
     ++ (if isInstance env then
           [ServerRemoveServer (socketPath env); ServerListen (socketPath env);
            ServerConnectNewConnection]
           ++ (if returned (verdict env) then
                 (if listen env
                  then repeat ServerNextPendingConnection (length (pending w)) else [])
                 ++ [ServerClose]
               else [])
         else []))%list.
Proof.
  intros _.
  destruct (run_control isServerEvent env w control_server) as [_ Hl].
  rewrite Hl. f_equal. unfold controlTrace, isInstance.
  destruct (process_exits env); [reflexivity|].
  destruct (waitForConnected env).
  { destruct (Z.of_nat (length (positionalArguments env)) =? 1); reflexivity. }
  destruct (Z.of_nat (length (positionalArguments env)) =? 1); [reflexivity|].
  cbn [negb andb]. rewrite List.filter_app. f_equal.
  destruct (returned (verdict env)); [|reflexivity].
  rewrite !List.filter_app.
  replace (List.filter isServerEvent (if settingsRequested env then [SettingsWidgetShow] else []))
    with (@nil Event) by (destruct (settingsRequested env); reflexivity).
  cbn [app List.filter isServerEvent]. f_equal.
  destruct (listen env); [|reflexivity].
  rewrite filter_flat_map.
  rewrite (flat_map_ext _ (fun _ => [ServerNextPendingConnection]))
    by (intros b; apply serviceOf_server).
  apply flat_map_constant.
Qed.

Lemma run_endpoint_witness :
  withoutDialog primary (start cachedb [cstr "toggle"; []])
  /\ List.filter isServerEvent
       (events (final (run primary (start cachedb [cstr "toggle"; []]))))
     = [ServerRemoveServer "/home/user/.cache/albert/socket";
        ServerListen "/home/user/.cache/albert/socket";
        ServerConnectNewConnection;
        ServerNextPendingConnection; ServerNextPendingConnection; ServerClose].
Proof.
  assert (H : withoutDialog primary (start cachedb [cstr "toggle"; []]))
    by (vm_compute; reflexivity).
  split; [exact H|].
  rewrite (run_endpoint primary (start cachedb [cstr "toggle"; []]) H).
  reflexivity.
Defined.

(** X5. What a whole run that opens no message box puts on sockets: an
    invocation that reaches an instance with exactly one token writes that
    token and nothing else; the instance, once started and bound, writes one
    reply per connection that delivered bytes, in order, all of them in the
    event loop; nothing is written otherwise. *)
Theorem run_socket_writes (env : Env) (w : World) :
  withoutDialog env w ->
  written (events (final (run env w)))
  = (written (events w)
     ++ (match process_exits env with
         | Some _ => []
         | None =>
             if waitForConnected env then
               if Z.of_nat (length (positionalArguments env)) =? 1
               then toLocal8Bit env (nth 0 (positionalArguments env) "")
               else []
             else if returned (verdict env) && listen env
                  then flat_map (replyTo env) (pending w)
                  else []
         end))%list.
Proof.
  intros _.
  destruct (run_control isSocketWrite env w control_write) as [_ Hl].
  rewrite <- (written_filter (events (final (run env w)))), Hl.
  rewrite written_app, !written_filter. f_equal.
  rewrite <- returned_isInstance. unfold controlTrace, isInstance.
  destruct (process_exits env); [reflexivity|].
  destruct (waitForConnected env).
  { destruct (Z.of_nat (length (positionalArguments env)) =? 1);
      [apply app_nil_r | reflexivity]. }
  destruct (Z.of_nat (length (positionalArguments env)) =? 1);
    [rewrite andb_false_r; reflexivity|].
  cbn [negb andb app written]. rewrite andb_true_r.
  destruct (returned (verdict env)); [|reflexivity].
  rewrite !written_app.
  replace (written (if settingsRequested env then [SettingsWidgetShow] else []))
    with (@nil byte) by (destruct (settingsRequested env); reflexivity).
  cbn [app written andb]. rewrite app_nil_r.
  destruct (listen env); [|reflexivity].
  rewrite written_flat_map.
  apply flat_map_ext. intros b. apply serviceOf_written.
Qed.

Lemma run_socket_writes_witness :
  withoutDialog primary (start cachedb [cstr "toggle"; []])
  /\ written (events (final (run primary (start cachedb [cstr "toggle"; []]))))
     = cstr "Visibility toggled.".
Proof.
  assert (H : withoutDialog primary (start cachedb [cstr "toggle"; []]))
    by (vm_compute; reflexivity).
  split; [exact H|].
  rewrite (run_socket_writes primary (start cachedb [cstr "toggle"; []]) H).
  reflexivity.
Defined.

(** ** Paths, first run, and the log line *)

Ltac run_world :=
  cbv [bind emit ret when exit crash forEach qDebug qInfo qWarning qCritical qFatal
       myMessageOutput timeString outcome final
       events ticks tables txn pending fst snd negb andb];
  rewrite <- ?app_assoc; cbn [app].

(** X11. The three directories are made in the order data, cache, configuration,
    and the first that cannot be made ends the process with status 1 before
    anything else is touched. Only when all three exist is the settings path
    set; an old configuration file is then moved over the new one, which is
    removed first if it exists. *)
Theorem initializePaths_files (env : Env) (w : World) :
  let oldcfg := ConfigLocation env ++ "/albert.conf" in
  let newcfg := ConfigLocation env ++ "/albert/albert.conf" in
  let made := mkpath env (DataLocation env) && mkpath env (CacheLocation env)
              && mkpath env (AppConfigLocation env) in
  outcome (initializePaths env w) = (if made then Returned tt else Exited 1)
  /\ List.filter isFileOp (events (final (initializePaths env w)))
     = (List.filter isFileOp (events w)
        ++ DirMkpath (DataLocation env)
           :: (if mkpath env (DataLocation env) then
                 DirMkpath (CacheLocation env)
                 :: (if mkpath env (CacheLocation env) then
                       DirMkpath (AppConfigLocation env)
                       :: (if mkpath env (AppConfigLocation env) then
                             SettingsSetPath (AppConfigLocation env)
                             :: (if exists_oldcfg env then
                                   (if exists_newcfg env then [FileRemove newcfg] else [])
                                   ++ [FileRename oldcfg newcfg]
                                 else [])
                           else [])
                     else [])
               else []))%list.
Proof.
  cbv zeta. unfold initializePaths.
  destruct (mkpath env (DataLocation env)) eqn:Hd;
  destruct (mkpath env (CacheLocation env)) eqn:Hc;
  destruct (mkpath env (AppConfigLocation env)) eqn:Ha;
  destruct (exists_oldcfg env); destruct (exists_newcfg env);
  run_world; rewrite ?Hd, ?Hc, ?Ha; run_world;
  (split; [reflexivity | rewrite List.filter_app; reflexivity]).
Qed.

(** X12. The rename of [firstrun] to [last_used_version] is attempted at every
    start, whether or not [firstrun] exists; the version file is rewritten
    whenever it can be opened for writing; the settings dialog is asked for
    only on a first run that is answered with yes. Nothing here ends the
    process. *)
Theorem detectFirstRun_files (env : Env) (w : World) :
  let firstrun := DataLocation env ++ "/firstrun" in
  let file := DataLocation env ++ "/last_used_version" in
  outcome (detectFirstRun env w)
    = Returned (negb (exists_last_used_version env) && firstRunAnswerYes env)
  /\ List.filter isFileOp (events (final (detectFirstRun env w)))
     = (List.filter isFileOp (events w)
        ++ (if exists_firstrun_cache env
            then [FileRename (CacheLocation env ++ "/firstrun") firstrun] else [])
        ++ [FileRename firstrun file]
        ++ (if open_last_used_version_wo env
            then [FileWrite file applicationVersion] else []))%list.
Proof.
  cbv zeta. unfold detectFirstRun.
  destruct (exists_firstrun_cache env); destruct (exists_firstrun_data env);
  destruct (exists_last_used_version env); destruct (open_last_used_version_ro env);
  destruct (majorVersionChanged env); destruct (open_last_used_version_wo env);
  run_world;
  (split; [reflexivity | rewrite List.filter_app; reflexivity]).
Qed.

Lemma isPrefixOf_app (p l : QByteArray) : isPrefixOf p (p ++ l)%list = true.
Proof.
  induction p as [|a p IH]; [reflexivity|].
  cbn [app isPrefixOf]. rewrite IH, andb_true_r. destruct a; reflexivity.
Qed.

Lemma contains_skip (needle pre hay : QByteArray) :
  contains needle hay = true -> contains needle (pre ++ hay)%list = true.
Proof.
  intros H. induction pre as [|a pre IH]; [exact H|].
  cbn [app contains]. rewrite IH. apply orb_true_r.
Qed.

Lemma contains_prefix (needle hay : QByteArray) :
  isPrefixOf needle hay = true -> contains needle hay = true.
Proof. intros H. destruct hay; cbn [contains]; rewrite H; reflexivity. Qed.

Lemma contains_middle (needle pre post : QByteArray) :
  contains needle (pre ++ needle ++ post)%list = true.
Proof. apply contains_skip, contains_prefix, isPrefixOf_app. Qed.

Lemma constData_no_nul (b : QByteArray) : ~ In x00 (constData b).
Proof.
  induction b as [|c b IH]; [intros []|].
  cbn [constData]. destruct (Byte.eqb c x00) eqn:E; [intros []|].
  intros [H|H]; [|exact (IH H)]. subst c. discriminate.
Qed.

(** X13. A message of any severity is one line on one stream: it goes to stdout,
    flushed, for debug and info and to stderr otherwise; the line shows the
    time of day and the text, each up to its first NUL byte; the clock is read
    exactly once; only a fatal message ends the process, with status 1. *)
Theorem myMessageOutput_line
    (env : Env) (type : QtMsgType) (ctx : QMessageLogContext) (message : QString)
    (w : World) :
  exists text : QByteArray,
    events (final (myMessageOutput env type ctx message w))
      = (events w ++ Fprintf (streamOf type) text :: flushed type)%list
    /\ contains (constData (toLocal8Bit env message)) text = true
    /\ contains (constData (toLocal8Bit env (currentTime env (ticks w)))) text = true
    /\ ticks (final (myMessageOutput env type ctx message w)) = S (ticks w)
    /\ outcome (myMessageOutput env type ctx message w)
       = match type with QtFatalMsg => Exited 1 | _ => Returned tt end.
Proof.
  destruct type; eexists; run_world;
  (split; [reflexivity|]);
  (split; [|split; [|split; reflexivity]]);
  solve [repeat first [apply contains_prefix, isPrefixOf_app | apply contains_skip]].
Qed.
